(** * Seat reservation in the ticket-booking front end

    A shallow embedding of [src/pages/SeatSelection.tsx] (the seat page of
    the application) and of the two tables of the schema migration it
    writes to, [bookings] and [booked_seats]; then of what the seat page
    renders, of the bookings page, of the date and genre buttons of the
    movie and front pages, and of the row level security policies of the
    migration.

    Conventions of the embedding.
    - JavaScript strings are [string]; a template literal [`${a}${b}`] is
      string concatenation, and an integer column number is rendered in
      decimal, which is what stdpp's [pretty] on [Z] computes.
    - The numbers of the seat layout are integers ([Z]), as the data shape
      [{ row, cols, type }] of the layout has them; a missing [type] is
      [None].
    - [ticket_price] and [total_price] are [DECIMAL(10,2)] columns and are
      held as a number of cents in [Z]; the product of price and seat count
      is the exact one, and the store refuses a total its column cannot
      hold.
    - React state is a record, and every [setX] call writes one field. A
      component that leaves the tree loses its cells.
    - The store is a record of tables; a table is the list of its rows in
      insertion order. [gen_random_uuid()] is a counter that never repeats.
    - [await] points are where other clients may run: an async handler is
      cut into the steps between its awaits. *)

From Stdlib Require Import Ascii.
From stdpp Require Import base numbers list strings pretty gmap.

Local Open Scope Z_scope.

(** ** Decimal digits in seat labels *)

Module Digits.

Definition is_digit (a : ascii) : bool :=
  match Ascii.is_nat a with Some _ => true | None => false end.

Fixpoint all_digits (s : string) : bool :=
  match s with
  | EmptyString => true
  | String a s' => is_digit a && all_digits s'
  end.

Fixpoint ends_in_digit (s : string) : bool :=
  match s with
  | EmptyString => false
  | String a EmptyString => is_digit a
  | String _ s' => ends_in_digit s'
  end.

End Digits.

(** ** Seat Layout Resolver: the layout loops of [fetchShowtimeAndSeats] *)

(** One element of [layout.seats]. *)
Record RowData := mkRowData {
  row : string;
  cols : Z;
  type : option string;
}.

(** [interface Seat]. *)
Record Seat := mkSeat {
  label : string;
  seat_row : string;
  col : Z;
  seat_type : option string;
  isBooked : bool;
}.

Module Layout.

(** The seat pushed by one iteration of the inner loop. *)
Definition seat_at (bookedSeatLabels : gset string) (rowData : RowData)
    (col : Z) : Seat :=
  let seatLabel := row rowData +:+ pretty col in
  {| label := seatLabel;
     seat_row := row rowData;
     col := col;
     seat_type := type rowData;
     isBooked := bool_decide (seatLabel ∈ bookedSeatLabels) |}.

(** [for (let col = 1; col <= rowData.cols; col++) allSeats.push(...)],
    from the current value of [col]; [fuel] bounds the iterations. *)
Fixpoint row_loop (fuel : nat) (bookedSeatLabels : gset string)
    (rowData : RowData) (col : Z) (allSeats : list Seat) : list Seat :=
  match fuel with
  | O => allSeats
  | S fuel' =>
      if bool_decide (col ≤ cols rowData)
      then row_loop fuel' bookedSeatLabels rowData (col + 1)
             (allSeats ++ [seat_at bookedSeatLabels rowData col])
      else allSeats
  end.

(** The body of [layout.seats.forEach]: the inner loop from [col = 1].
    [Z.to_nat cols] iterations are all it needs ([row_loop_fuel]). *)
Definition push_row (bookedSeatLabels : gset string) (allSeats : list Seat)
    (rowData : RowData) : list Seat :=
  row_loop (Z.to_nat (cols rowData)) bookedSeatLabels rowData 1 allSeats.

(** [const allSeats = []; layout.seats.forEach(...)]. *)
Definition generateSeats (bookedSeatLabels : gset string)
    (layout : list RowData) : list Seat :=
  fold_left (push_row bookedSeatLabels) layout [].

(** The seats of one row, as a list comprehension. *)
Definition row_seats (bookedSeatLabels : gset string) (rowData : RowData)
    : list Seat :=
  seat_at bookedSeatLabels rowData <$> seqZ 1 (cols rowData).

Definition sum_cols (layout : list RowData) : Z :=
  foldr (λ rowData acc, cols rowData + acc) 0 layout.

End Layout.

(** ** The store: the tables of the schema migration *)

(** A row of [showtimes] as the page reads it, joined with its hall:
    the select that embeds [movies] and [theater_halls]. [seat_layout] is
    [theater_halls.seat_layout.seats]. *)
Module Showtime.
Record t := mk {
  id : string;
  ticket_price : Z;
  seat_layout : list RowData;
}.
End Showtime.

(** A row of [public.bookings]. *)
Module Booking.
Record t := mk {
  id : N;
  user_id : string;
  showtime_id : string;
  seats : list string;
  total_price : Z;
  booking_status : string;
}.
End Booking.

(** A row of [public.booked_seats]. *)
Module BookedSeat.
Record t := mk {
  showtime_id : string;
  seat_label : string;
  booking_id : N;
}.

(** The columns of [UNIQUE(showtime_id, seat_label)]. *)
Definition key (r : t) : string * string := (showtime_id r, seat_label r).
End BookedSeat.

(** The errors the store answers with: [NoSingleRow] is the one of
    [.single()] when the rows are not exactly one (PGRST116), the others
    are those of Postgres for a value out of the range of its column
    (22003), a foreign key (23503) and a uniqueness constraint (23505). *)
Inductive PgError :=
  | NoSingleRow
  | NumericOverflow
  | ForeignKeyViolation (table constraint : string)
  | UniqueViolation (constraint : string).

(** The double quote Postgres puts round the names in its messages. *)
Definition dquote : string := String (ascii_of_nat 34) EmptyString.

Definition quoted (name : string) : string := dquote +:+ name +:+ dquote.

(** [error.message], the text of the server. *)
Definition message (e : PgError) : string :=
  match e with
  | NoSingleRow => "JSON object requested, multiple (or no) rows returned"
  | NumericOverflow => "numeric field overflow"
  | ForeignKeyViolation t c =>
      "insert or update on table " +:+ quoted t +:+
      " violates foreign key constraint " +:+ quoted c
  | UniqueViolation c =>
      "duplicate key value violates unique constraint " +:+ quoted c
  end.

(** [profiles] holds the [id] of every row of [public.profiles]: the users
    that have a profile, which [bookings.user_id] refers to. *)
Record Store := mkStore {
  profiles : list string;
  showtimes : list Showtime.t;
  bookings : list Booking.t;
  booked_seats : list BookedSeat.t;
  next_uuid : N;
}.

Module Db.

(** [from('showtimes').select(...).eq('id', showtimeId).single()]. *)
Definition select_showtime (db : Store) (showtimeId : string)
    : PgError + Showtime.t :=
  match filter (λ s, Showtime.id s = showtimeId) (showtimes db) with
  | [s] => inr s
  | _ => inl NoSingleRow
  end.

(** The labels of the rows
    [from('booked_seats').select('seat_label').eq('showtime_id', showtimeId)]
    returns. *)
Definition booked_labels (db : Store) (showtimeId : string) : list string :=
  BookedSeat.seat_label <$>
    filter (λ r, BookedSeat.showtime_id r = showtimeId) (booked_seats db).

(** The read itself, with the [{ data, error }] of the client; nothing in
    the store makes it fail. *)
Definition select_booked_seats (db : Store) (showtimeId : string)
    : PgError + list string :=
  inr (booked_labels db showtimeId).

Definition showtime_exists (db : Store) (showtimeId : string) : bool :=
  bool_decide (showtimeId ∈ Showtime.id <$> showtimes db).

Definition booking_exists (db : Store) (bookingId : N) : bool :=
  bool_decide (bookingId ∈ Booking.id <$> bookings db).

Definition profile_exists (db : Store) (user_id : string) : bool :=
  bool_decide (user_id ∈ profiles db).

(** [DECIMAL(10,2)] holds the amounts whose absolute value is below
    [10^8], which is [10^10] cents. *)
Definition decimal_10_2 (cents : Z) : bool :=
  bool_decide (Z.abs cents < 10 ^ 10).

(** What the store checks of a new row of [bookings]: the value of
    [total_price] is brought to the type of its column when the row is
    formed, and the two foreign keys are checked once the row is in, in
    the order the table declares them. *)
Definition check_booking (db : Store) (user_id showtime_id : string)
    (total_price : Z) : option PgError :=
  if negb (decimal_10_2 total_price) then Some NumericOverflow
  else if negb (profile_exists db user_id) then
    Some (ForeignKeyViolation "bookings" "bookings_user_id_fkey")
  else if negb (showtime_exists db showtime_id) then
    Some (ForeignKeyViolation "bookings" "bookings_showtime_id_fkey")
  else None.

(** [from('bookings').insert({user_id, showtime_id, seats, total_price})
    .select().single()]: [id] and [booking_status] take their defaults and
    the new row is returned; a row the store refuses leaves it as it
    is. *)
Definition insert_booking (db : Store) (user_id showtime_id : string)
    (seats : list string) (total_price : Z)
    : Store * (PgError + Booking.t) :=
  match check_booking db user_id showtime_id total_price with
  | Some e => (db, inl e)
  | None =>
      let b := {| Booking.id := next_uuid db;
                  Booking.user_id := user_id;
                  Booking.showtime_id := showtime_id;
                  Booking.seats := seats;
                  Booking.total_price := total_price;
                  Booking.booking_status := "confirmed" |} in
      ({| profiles := profiles db;
          showtimes := showtimes db;
          bookings := bookings db ++ [b];
          booked_seats := booked_seats db;
          next_uuid := N.succ (next_uuid db) |}, inr b)
  end.

(** The error of [UNIQUE(showtime_id, seat_label)]. *)
Definition unique_error : PgError :=
  UniqueViolation "booked_seats_showtime_id_seat_label_key".

(** The constraints one row of [booked_seats] is checked against, given
    the table as it stands (rows of the same statement included). *)
Definition check_booked_seat (db : Store) (table : list BookedSeat.t)
    (r : BookedSeat.t) : option PgError :=
  if negb (showtime_exists db (BookedSeat.showtime_id r)) then
    Some (ForeignKeyViolation "booked_seats" "booked_seats_showtime_id_fkey")
  else if negb (booking_exists db (BookedSeat.booking_id r)) then
    Some (ForeignKeyViolation "booked_seats" "booked_seats_booking_id_fkey")
  else if bool_decide (BookedSeat.key r ∈ BookedSeat.key <$> table) then
    Some unique_error
  else None.

(** The rows of one [INSERT] statement, added one after the other. *)
Fixpoint insert_rows (db : Store) (table : list BookedSeat.t)
    (rows : list BookedSeat.t) : PgError + list BookedSeat.t :=
  match rows with
  | [] => inr table
  | r :: rows' =>
      match check_booked_seat db table r with
      | Some e => inl e
      | None => insert_rows db (table ++ [r]) rows'
      end
  end.

(** [from('booked_seats').insert(rows)]: one statement, so all rows or
    none. *)
Definition insert_booked_seats (db : Store) (rows : list BookedSeat.t)
    : Store * option PgError :=
  match insert_rows db (booked_seats db) rows with
  | inl e => (db, Some e)
  | inr table =>
      ({| profiles := profiles db;
          showtimes := showtimes db;
          bookings := bookings db;
          booked_seats := table;
          next_uuid := next_uuid db |}, None)
  end.

(** What the constraints of the schema keep true of a store:
    [booked_seats] has no two rows with one (showtime, seat), every
    reservation refers to a booking, and the identifiers still to be
    generated are new. *)
Definition wf (db : Store) : Prop :=
  NoDup (BookedSeat.key <$> booked_seats db) ∧
  Forall (λ r, BookedSeat.booking_id r ∈ Booking.id <$> bookings db)
    (booked_seats db) ∧
  Forall (λ b, (Booking.id b < next_uuid db)%N) (bookings db).

Global Instance wf_dec db : Decision (wf db).
Proof. unfold wf. apply _. Defined.

(** The rows of [booked_seats] that refer to a booking. *)
Definition reservations_of (db : Store) (bookingId : N)
    : list BookedSeat.t :=
  filter (λ r, BookedSeat.booking_id r = bookingId) (booked_seats db).

(** A seat of a showtime is reserved when [booked_seats] has its row. *)
Definition reserved (db : Store) (showtimeId seatLabel : string) : Prop :=
  (showtimeId, seatLabel) ∈ BookedSeat.key <$> booked_seats db.

Global Instance reserved_dec db showtimeId seatLabel :
  Decision (reserved db showtimeId seatLabel).
Proof. unfold reserved. apply _. Defined.

End Db.

(** ** The seat page: component [SeatSelection] *)

(** The identity [useAuth] gives. *)
Module User.
Record t := mk { id : string }.
End User.

Record Toast := mkToast {
  title : string;
  description : string;
  variant : option string;
}.

(** What the hooks give the component: the route parameter and the user,
    [None] when nobody is signed in. *)
Record Props := mkProps {
  showtimeId : string;
  user : option User.t;
}.

(** The [useState] cells of the component, with what belongs to the
    application round it: the toasts shown, the [navigate] calls made so
    far, and whether the component is on the tree. *)
Record State := mkState {
  seats : list Seat;
  selectedSeats : list string;
  showtime : option Showtime.t;
  loading : bool;
  booking : bool;
  toasts : list Toast;
  navigated : list string;
  mounted : bool;
}.

(** How a call of an async handler ends. *)
Inductive Outcome :=
  | Returned
  | Failed (error : PgError)
  | Confirmed.

(** The three states of the legend. *)
Inductive SeatState := available | selected | booked.

Module Page.

(** The component as it is mounted: every cell holds the argument of its
    [useState] call. *)
Definition initial : State :=
  {| seats := []; selectedSeats := []; showtime := None; loading := true;
     booking := false; toasts := []; navigated := []; mounted := true |}.

Definition setSeats (v : list Seat) (st : State) : State :=
  {| seats := v; selectedSeats := selectedSeats st; showtime := showtime st;
     loading := loading st; booking := booking st; toasts := toasts st;
     navigated := navigated st; mounted := mounted st |}.

Definition setSelectedSeats (f : list string → list string) (st : State)
    : State :=
  {| seats := seats st; selectedSeats := f (selectedSeats st);
     showtime := showtime st; loading := loading st; booking := booking st;
     toasts := toasts st; navigated := navigated st;
     mounted := mounted st |}.

Definition setShowtime (v : option Showtime.t) (st : State) : State :=
  {| seats := seats st; selectedSeats := selectedSeats st; showtime := v;
     loading := loading st; booking := booking st; toasts := toasts st;
     navigated := navigated st; mounted := mounted st |}.

Definition setLoading (v : bool) (st : State) : State :=
  {| seats := seats st; selectedSeats := selectedSeats st;
     showtime := showtime st; loading := v; booking := booking st;
     toasts := toasts st; navigated := navigated st;
     mounted := mounted st |}.

Definition setBooking (v : bool) (st : State) : State :=
  {| seats := seats st; selectedSeats := selectedSeats st;
     showtime := showtime st; loading := loading st; booking := v;
     toasts := toasts st; navigated := navigated st;
     mounted := mounted st |}.

Definition toast (t : Toast) (st : State) : State :=
  {| seats := seats st; selectedSeats := selectedSeats st;
     showtime := showtime st; loading := loading st; booking := booking st;
     toasts := toasts st ++ [t]; navigated := navigated st;
     mounted := mounted st |}.

(** The paths the router gives to this component: [MovieDetails] opens the
    seat page with [navigate(`/booking/${showtimeId}`)]. *)
Definition seat_route (path : string) : bool :=
  String.prefix "/booking/" path.

(** The component leaves the tree: React drops its [useState] cells, the
    selection among them, and a later [setX] of a handler that is still
    running finds no cell to write. From then on the record holds what a
    component that is mounted again starts from, the arguments of the
    [useState] calls; the toasts and the history are the application's and
    stay. *)
Definition unmount (st : State) : State :=
  {| seats := []; selectedSeats := []; showtime := None; loading := true;
     booking := false; toasts := toasts st; navigated := navigated st;
     mounted := false |}.

(** [navigate(path)]: the router goes to [path], and a path that is not a
    seat page takes the component off the tree. *)
Definition navigate (path : string) (st : State) : State :=
  let st' :=
    {| seats := seats st; selectedSeats := selectedSeats st;
       showtime := showtime st; loading := loading st;
       booking := booking st; toasts := toasts st;
       navigated := navigated st ++ [path]; mounted := mounted st |} in
  if seat_route path then st' else unmount st'.

Definition error_loading_seats : Toast :=
  {| title := "Error loading seats";
     description := "Please try again later";
     variant := Some "destructive" |}.

(** [error.message || 'Please try again']. *)
Definition booking_failed (error : PgError) : Toast :=
  {| title := "Booking failed";
     description :=
       if bool_decide (message error = "") then "Please try again"
       else message error;
     variant := Some "destructive" |}.

Definition booking_confirmed (selectedSeats : list string) : Toast :=
  {| title := "Booking confirmed!";
     description :=
       "Your " +:+ pretty (Z.of_nat (length selectedSeats)) +:+
       " seat(s) have been booked successfully.";
     variant := None |}.

(** [fetchShowtimeAndSeats]. It awaits the store twice: [db1] is the store
    when the showtime is read and [db2] the store when the reserved seats
    are. Either error is thrown to the [catch], which shows the toast; the
    [finally] lowers [loading]. *)
Definition fetchShowtimeAndSeats (p : Props) (db1 db2 : Store) (st : State)
    : State :=
  let st' :=
    match Db.select_showtime db1 (showtimeId p) with
    | inl showtimeError => toast error_loading_seats st
    | inr showtimeData =>
        let st1 := setShowtime (Some showtimeData) st in
        match Db.select_booked_seats db2 (showtimeId p) with
        | inl bookedError => toast error_loading_seats st1
        | inr bookedSeats =>
            let bookedSeatLabels : gset string := list_to_set bookedSeats in
            let layout := Showtime.seat_layout showtimeData in
            setSeats (Layout.generateSeats bookedSeatLabels layout) st1
        end
    end in
  setLoading false st'.

(** The listener of the [booked_seats_changes] channel: every event on the
    rows of this showtime runs the fetch again. *)
Definition on_booked_seats_change (p : Props) (db1 db2 : Store) (st : State)
    : State :=
  fetchShowtimeAndSeats p db1 db2 st.

(** The updater [toggleSeat] hands to [setSelectedSeats]:
    [prev => prev.includes(seatLabel) ? prev.filter(s => s !== seatLabel)
    : [...prev, seatLabel]]. *)
Definition toggled (seatLabel : string) (prev : list string) : list string :=
  if bool_decide (seatLabel ∈ prev)
  then filter (λ s, s ≠ seatLabel) prev
  else prev ++ [seatLabel].

(** [toggleSeat]. *)
Definition toggleSeat (seatLabel : string) (isBooked : bool) (st : State)
    : State :=
  if isBooked then st else setSelectedSeats (toggled seatLabel) st.

(** [onClick={() => toggleSeat(seat.label, seat.isBooked)}] of a seat
    button. *)
Definition click_seat (seat : Seat) (st : State) : State :=
  toggleSeat (label seat) (isBooked seat) st.

(** What [handleBooking] holds between its two awaits: the selection of the
    render it was called from and the booking row the store returned. *)
Record Pending := mkPending {
  submitted : list string;
  bookingData : Booking.t;
}.

Definition seatReservations (p : Props) (pend : Pending)
    : list BookedSeat.t :=
  (λ seatLabel,
     {| BookedSeat.showtime_id := showtimeId p;
        BookedSeat.seat_label := seatLabel;
        BookedSeat.booking_id := Booking.id (bookingData pend) |})
  <$> submitted pend.

(** The booking row a submission asks for. *)
Definition new_booking (p : Props) (st : State) (db : Store) (u : User.t)
    (sh : Showtime.t) : Booking.t :=
  {| Booking.id := next_uuid db;
     Booking.user_id := User.id u;
     Booking.showtime_id := showtimeId p;
     Booking.seats := selectedSeats st;
     Booking.total_price :=
       Showtime.ticket_price sh * Z.of_nat (length (selectedSeats st));
     Booking.booking_status := "confirmed" |}.

(** [handleBooking] up to the answer of the insert into [bookings]. *)
Definition handleBooking_begin (p : Props) (st : State) (db : Store)
    : Store * State * (Outcome + Pending) :=
  match user p, showtime st with
  | Some u, Some sh =>
      if bool_decide (length (selectedSeats st) = 0%nat)
      then (db, st, inl Returned)
      else
        let st1 := setBooking true st in
        let totalPrice :=
          Showtime.ticket_price sh * Z.of_nat (length (selectedSeats st)) in
        match Db.insert_booking db (User.id u) (showtimeId p)
                (selectedSeats st) totalPrice with
        | (db', inl bookingError) =>
            (db', setBooking false (toast (booking_failed bookingError) st1),
             inl (Failed bookingError))
        | (db', inr row) =>
            (db', st1,
             inr {| submitted := selectedSeats st; bookingData := row |})
        end
  | _, _ => (db, st, inl Returned)
  end.

(** [handleBooking] from the insert into [booked_seats] on. *)
Definition handleBooking_finish (p : Props) (pend : Pending) (st : State)
    (db : Store) : Store * State * Outcome :=
  match Db.insert_booked_seats db (seatReservations p pend) with
  | (db', Some seatsError) =>
      (db', setBooking false (toast (booking_failed seatsError) st),
       Failed seatsError)
  | (db', None) =>
      (db',
       setBooking false
         (navigate "/bookings"
            (toast (booking_confirmed (submitted pend)) st)),
       Confirmed)
  end.

(** [handleBooking] with nothing else running between its awaits. *)
Definition handleBooking (p : Props) (st : State) (db : Store)
    : Store * State * Outcome :=
  match handleBooking_begin p st db with
  | (db1, st1, inl outcome) => (db1, st1, outcome)
  | (db1, st1, inr pend) => handleBooking_finish p pend st1 db1
  end.

(** The three conditional classes of a seat button, in the order of the
    [cn(...)] call: [seat.isBooked && 'bg-muted ...'],
    [!seat.isBooked && !selectedSeats.includes(seat.label) && 'bg-card ...'],
    [selectedSeats.includes(seat.label) && 'bg-primary ...']. The legend
    names them Booked, Available and Selected. *)
Definition seat_states (selectedSeats : list string) (seat : Seat)
    : list SeatState :=
  (if isBooked seat then [booked] else []) ++
  (if negb (isBooked seat) && negb (bool_decide (label seat ∈ selectedSeats))
   then [available] else []) ++
  (if bool_decide (label seat ∈ selectedSeats) then [selected] else []).

(** The projection the page shows: every seat with its states. *)
Definition projection (st : State) : list (string * list SeatState) :=
  (λ seat, (label seat, seat_states (selectedSeats st) seat)) <$> seats st.

End Page.

(** ** The life of one page *)

(** What can happen to a mounted page: a click on a seat button, a change
    notification (or the fetch on mount), a press of Confirm. Each comes
    with the store as it is at that moment. *)
Inductive Event :=
  | Toggle (seatLabel : string) (isBooked : bool)
  | Refetch (db1 db2 : Store)
  | Submit (db : Store).

Module Trace.

(** A page that has left the tree has no buttons and no channel: nothing
    reaches it any more. *)
Definition react (p : Props) (st : State) (ev : Event) : State :=
  if mounted st then
    match ev with
    | Toggle seatLabel isBooked => Page.toggleSeat seatLabel isBooked st
    | Refetch db1 db2 => Page.on_booked_seats_change p db1 db2 st
    | Submit db => (Page.handleBooking p st db).1.2
    end
  else st.

(** The state of a page after the events since it was mounted. *)
Definition after (p : Props) (events : list Event) : State :=
  fold_left (react p) events Page.initial.

End Trace.

(** ** Several clients submitting against one store *)

(** Every client runs its own page on the event loop of its own browser;
    the store takes their requests one at a time. A submission is two
    requests, so the requests of several submissions interleave in any
    order a schedule names. *)

(** Where a client's [handleBooking] stands. *)
Inductive Phase :=
  | Ready
  | Awaiting (pend : Page.Pending)
  | Finished (outcome : Outcome) (pend : option Page.Pending).

Record Client := mkClient {
  props : Props;
  state : State;
  phase : Phase;
}.

Record Config := mkConfig {
  store : Store;
  clients : list Client;
}.

Module Race.

(** All clients on their page, about to press Confirm. *)
Definition start (db : Store) (pages : list (Props * State)) : Config :=
  {| store := db;
     clients := (λ page, mkClient page.1 page.2 Ready) <$> pages |}.

(** The store serves the next request of client [i]. A client whose page
    is not on the tree has no Confirm button to press. *)
Definition step (cfg : Config) (i : nat) : Config :=
  match clients cfg !! i with
  | None => cfg
  | Some c =>
      match phase c with
      | Ready =>
          if mounted (state c) then
            match Page.handleBooking_begin (props c) (state c)
                    (store cfg) with
            | (db', st', inl outcome) =>
                {| store := db';
                   clients :=
                     <[i := mkClient (props c) st' (Finished outcome None)]>
                       (clients cfg) |}
            | (db', st', inr pend) =>
                {| store := db';
                   clients :=
                     <[i := mkClient (props c) st' (Awaiting pend)]>
                       (clients cfg) |}
            end
          else cfg
      | Awaiting pend =>
          match Page.handleBooking_finish (props c) pend (state c)
                  (store cfg) with
          | (db', st', outcome) =>
              {| store := db';
                 clients :=
                   <[i := mkClient (props c) st'
                            (Finished outcome (Some pend))]>
                     (clients cfg) |}
          end
      | Finished _ _ => cfg
      end
  end.

Definition run (cfg : Config) (schedule : list nat) : Config :=
  fold_left step schedule cfg.

(** The booking row a client holds, once the store has returned it. *)
Definition pend_of (ph : Phase) : option Page.Pending :=
  match ph with
  | Ready => None
  | Awaiting pend => Some pend
  | Finished _ pend => pend
  end.

(** What every reachable configuration satisfies. *)
Record Inv (cfg : Config) : Prop := mkInv {
  inv_wf : Db.wf (store cfg);
  inv_pend :
    ∀ i c pend, clients cfg !! i = Some c → pend_of (phase c) = Some pend →
      Db.showtime_exists (store cfg) (showtimeId (props c)) = true ∧
      Page.bookingData pend ∈ bookings (store cfg);
  inv_distinct :
    ∀ i j ci cj pi pj, i ≠ j →
      clients cfg !! i = Some ci → clients cfg !! j = Some cj →
      pend_of (phase ci) = Some pi → pend_of (phase cj) = Some pj →
      Booking.id (Page.bookingData pi) ≠ Booking.id (Page.bookingData pj);
  inv_none :
    ∀ i c pend, clients cfg !! i = Some c →
      phase c = Awaiting pend ∨ (∃ e, phase c = Finished (Failed e) (Some pend)) →
      Db.reservations_of (store cfg) (Booking.id (Page.bookingData pend)) = [];
  inv_outcome :
    ∀ i c o pend, clients cfg !! i = Some c →
      phase c = Finished o (Some pend) →
      o = Confirmed ∨ o = Failed Db.unique_error;
  inv_confirmed :
    ∀ i c pend, clients cfg !! i = Some c →
      phase c = Finished Confirmed (Some pend) →
      Db.reservations_of (store cfg) (Booking.id (Page.bookingData pend)) =
        Page.seatReservations (props c) pend;
}.

End Race.

(** ** The scenario of the specification: a hall of rows A and B *)

Module Scenario.

Definition hall : list RowData :=
  [ {| row := "A"; cols := 2; type := Some "standard" |};
    {| row := "B"; cols := 2; type := Some "standard" |} ].

(** One showtime at 10.00 a seat, nothing booked; Alice and Bob have
    their profiles. *)
Definition s1 : Showtime.t :=
  {| Showtime.id := "s1"; Showtime.ticket_price := 1000;
     Showtime.seat_layout := hall |}.

Definition db0 : Store :=
  {| profiles := ["alice"; "bob"];
     showtimes := [s1];
     bookings := [];
     booked_seats := [];
     next_uuid := 0 |}.

Definition alice : Props :=
  {| showtimeId := "s1"; user := Some (User.mk "alice") |}.
Definition bob : Props :=
  {| showtimeId := "s1"; user := Some (User.mk "bob") |}.
Definition anonymous : Props :=
  {| showtimeId := "s1"; user := None |}.

(** A page that has loaded the showtime from [db]. *)
Definition loaded (p : Props) (db : Store) : State :=
  Page.fetchShowtimeAndSeats p db db Page.initial.

(** The same page after clicks on the seats with the given labels. *)
Definition click_label (st : State) (seatLabel : string) : State :=
  match filter (λ seat, label seat = seatLabel) (seats st) with
  | seat :: _ => Page.click_seat seat st
  | [] => st
  end.

Definition picked (p : Props) (db : Store) (labels : list string) : State :=
  fold_left click_label labels (loaded p db).

(** Two rows with different labels that produce one label twice: the
    eleventh seat of row A and the first of row A1. *)
Definition clashing_hall : list RowData :=
  [ {| row := "A"; cols := 11; type := Some "standard" |};
    {| row := "A1"; cols := 1; type := Some "standard" |} ].

(** A row with a negative seat count. *)
Definition negative_hall : list RowData :=
  [ {| row := "A"; cols := 2; type := Some "standard" |};
    {| row := "B"; cols := -1; type := Some "standard" |} ].

(** A row with no seats and a row with no type tag. *)
Definition malformed_hall : list RowData :=
  [ {| row := "A"; cols := 0; type := Some "standard" |};
    {| row := "B"; cols := 2; type := None |} ].

Definition db_malformed : Store :=
  {| profiles := ["alice"; "bob"];
     showtimes :=
       [ {| Showtime.id := "s1"; Showtime.ticket_price := 1000;
            Showtime.seat_layout := malformed_hall |} ];
     bookings := [];
     booked_seats := [];
     next_uuid := 0 |}.

(** Alice has booked A1 and B2. *)
Definition db1 : Store :=
  (Page.handleBooking alice (picked alice db0 ["A1"; "B2"]) db0).1.1.

(** Alice (A1 and B2) and Bob (A1) press Confirm at the same time: the
    store takes Alice's booking row, Bob's booking row, Alice's seats and
    then Bob's seats. *)
Definition race_pages : list (Props * State) :=
  [ (alice, picked alice db0 ["A1"; "B2"]); (bob, picked bob db0 ["A1"]) ].

Definition race_schedule : list nat := [0; 1; 0; 1]%nat.

Definition race_final : Config :=
  Race.run (Race.start db0 race_pages) race_schedule.

Definition alice_booking : Booking.t :=
  {| Booking.id := 0; Booking.user_id := "alice";
     Booking.showtime_id := "s1"; Booking.seats := ["A1"; "B2"];
     Booking.total_price := 2000; Booking.booking_status := "confirmed" |}.

Definition bob_booking : Booking.t :=
  {| Booking.id := 1; Booking.user_id := "bob";
     Booking.showtime_id := "s1"; Booking.seats := ["A1"];
     Booking.total_price := 1000; Booking.booking_status := "confirmed" |}.

(** The store after an admin has put the price of the showtime up to
    25.00; the policy on [showtimes] lets admins update its rows. *)
Definition s1_repriced : Showtime.t :=
  {| Showtime.id := "s1"; Showtime.ticket_price := 2500;
     Showtime.seat_layout := hall |}.

Definition db_repriced : Store :=
  {| profiles := ["alice"; "bob"];
     showtimes := [s1_repriced];
     bookings := [];
     booked_seats := [];
     next_uuid := 0 |}.

(** A showtime at 99999999.99 a seat, the highest price its column
    holds. *)
Definition s1_dear : Showtime.t :=
  {| Showtime.id := "s1"; Showtime.ticket_price := 9999999999;
     Showtime.seat_layout := hall |}.

Definition db_dear : Store :=
  {| profiles := ["alice"; "bob"];
     showtimes := [s1_dear];
     bookings := [];
     booked_seats := [];
     next_uuid := 0 |}.

(** The same showtime once Bob has booked A1. *)
Definition db_dear_taken : Store :=
  {| profiles := ["alice"; "bob"];
     showtimes := [s1_dear];
     bookings :=
       [ {| Booking.id := 0; Booking.user_id := "bob";
            Booking.showtime_id := "s1"; Booking.seats := ["A1"];
            Booking.total_price := 9999999999;
            Booking.booking_status := "confirmed" |} ];
     booked_seats := [ BookedSeat.mk "s1" "A1" 0 ];
     next_uuid := 1 |}.

(** Carol has signed in and has no row in [profiles]. *)
Definition carol : Props :=
  {| showtimeId := "s1"; user := Some (User.mk "carol") |}.

End Scenario.

(** ** The rest of the seat page: what it renders *)

(** JavaScript collections the pages use. *)
Module Js.

(** [set.add(x)] on the values of a [Set] in insertion order. *)
Definition set_add {A} `{EqDecision A} (acc : list A) (x : A) : list A :=
  if bool_decide (x ∈ acc) then acc else acc ++ [x].

(** [Array.from(new Set(xs))]: every value once, in the order of its first
    occurrence. *)
Definition unique {A} `{EqDecision A} (xs : list A) : list A :=
  fold_left set_add xs [].

(** [s.includes(sub)]. *)
Fixpoint includes (s sub : string) : bool :=
  String.prefix sub s ||
  match s with
  | EmptyString => false
  | String _ s' => includes s' sub
  end.

End Js.

Global Instance Seat_eq_dec : EqDecision Seat.
Proof. solve_decision. Defined.

Module View.

(** A seat button: the seat its click handler closes over, its [disabled]
    attribute and its state classes. *)
Record SeatButton := mkSeatButton {
  seat : Seat;
  disabled : bool;
  states : list SeatState;
}.

(** A line of the seat map: the row label and the buttons of the row. *)
Record Row := mkRow {
  heading : string;
  buttons : list SeatButton;
}.

(** The booking summary card with the Confirm button. *)
Record Summary := mkSummary {
  selected_text : string;
  total : Z;
  confirm_disabled : bool;
  confirm_label : string;
}.

Inductive t :=
  | NotMounted
  | LoadingSeats
  | SeatMap (rows : list Row) (summary : option Summary).

End View.

Module Render.

Definition seat_button (st : State) (seat : Seat) : View.SeatButton :=
  {| View.seat := seat;
     View.disabled := isBooked seat;
     View.states := Page.seat_states (selectedSeats st) seat |}.

(** [rows.map(row => seats.filter(s => s.row === row).map(...))] with
    [rows = Array.from(new Set(seats.map(s => s.row)))]. *)
Definition seat_rows (st : State) : list View.Row :=
  (λ row,
     {| View.heading := row;
        View.buttons :=
          seat_button st <$> filter (λ s, seat_row s = row) (seats st) |})
  <$> Js.unique (seat_row <$> seats st).

(** [{selectedSeats.length > 0 && (<Card> ... </Card>)}], with
    [totalPrice = showtime.ticket_price * selectedSeats.length]. *)
Definition summary (st : State) (sh : Showtime.t) : option View.Summary :=
  if bool_decide (0 < length (selectedSeats st))%nat then
    Some {| View.selected_text := String.concat ", " (selectedSeats st);
            View.total :=
              Showtime.ticket_price sh * Z.of_nat (length (selectedSeats st));
            View.confirm_disabled := booking st;
            View.confirm_label :=
              if booking st then "Processing..." else "Confirm Booking" |}
  else None.

(** What the component returns: the loading screen while
    [loading || !showtime], the seat map otherwise. A component that is
    not on the tree is not rendered. *)
Definition render (st : State) : View.t :=
  if mounted st then
    match loading st, showtime st with
    | false, Some sh => View.SeatMap (seat_rows st) (summary st sh)
    | _, _ => View.LoadingSeats
    end
  else View.NotMounted.



End Render.

Module Submit.

(** The store after the booking row of a submission has gone in. *)
Definition with_booking (p : Props) (st : State) (db : Store) (u : User.t)
    (sh : Showtime.t) : Store :=
  {| profiles := profiles db;
     showtimes := showtimes db;
     bookings := bookings db ++ [Page.new_booking p st db u sh];
     booked_seats := booked_seats db;
     next_uuid := N.succ (next_uuid db) |}.

(** [k] presses of Confirm in a row, each after the one before has come
    back. *)
Fixpoint resubmit (k : nat) (p : Props) (st : State) (db : Store)
    : Store * State :=
  match k with
  | O => (db, st)
  | S k' =>
      match Page.handleBooking p st db with
      | (db1, st1, _) => resubmit k' p st1 db1
      end
  end.

End Submit.

(** ** The page of a user's bookings: component [Bookings] *)

Module Query.

(** [from('bookings').select(...).eq('user_id', user.id)
    .order('created_at', { ascending: false })]. The rows carry no
    [created_at] here, so the order of the answer is a parameter: [order]
    rearranges the rows of the user. *)
Definition select_bookings (order : list Booking.t → list Booking.t)
    (db : Store) (user_id : string) : PgError + list Booking.t :=
  inr (order (filter (λ b, Booking.user_id b = user_id) (bookings db))).

End Query.

Module Bookings.

Record State := mkState {
  bookings : list Booking.t;
  loading : bool;
  navigated : list string;
}.

Definition initial : State :=
  {| bookings := []; loading := true; navigated := [] |}.

(** [fetchBookings]. *)
Definition fetchBookings (order : list Booking.t → list Booking.t)
    (user : option User.t) (db : Store) (st : State) : State :=
  match user with
  | None => st
  | Some u =>
      let st1 :=
        match Query.select_bookings order db (User.id u) with
        | inr data =>
            {| bookings := data; loading := loading st;
               navigated := navigated st |}
        | inl error => st
        end in
      {| bookings := bookings st1; loading := false;
         navigated := navigated st1 |}
  end.

(** The effect on [user]: to the sign-in page without one, the fetch with
    one. *)
Definition effect (order : list Booking.t → list Booking.t)
    (user : option User.t) (db : Store) (st : State) : State :=
  match user with
  | None =>
      {| bookings := bookings st; loading := loading st;
         navigated := navigated st ++ ["/auth"] |}
  | Some _ => fetchBookings order user db st
  end.

(** The page as mounted for [user] on the store [db]. *)
Definition mount (order : list Booking.t → list Booking.t)
    (user : option User.t) (db : Store) : State :=
  effect order user db initial.

End Bookings.

(** ** The page of a movie: component [MovieDetails] *)

Module MovieDetails.

(** [interface Showtime] of the page, with the name of the hall. *)
Record Showtime := mkShowtime {
  id : string;
  show_date : string;
  show_time : string;
  ticket_price : Z;
  hall_name : string;
}.

(** [interface Movie]. *)
Record Movie := mkMovie {
  movie_id : string;
  title : string;
  description : string;
  poster_url : option string;
  trailer_url : option string;
  duration : Z;
  genres : list string;
}.

Record State := mkState {
  movie : option Movie;
  showtimes : list Showtime;
  loading : bool;
  selectedDate : string;
  toasts : list Toast;
  navigated : list string;
  console : list string;
}.

Definition initial : State :=
  {| movie := None; showtimes := []; loading := true; selectedDate := "";
     toasts := []; navigated := []; console := [] |}.

(** [fetchMovieDetails], given the answer of the store. *)
Definition fetchMovieDetails (response : PgError + Movie) (st : State)
    : State :=
  match response with
  | inl error =>
      {| movie := movie st; showtimes := showtimes st; loading := false;
         selectedDate := selectedDate st;
         toasts :=
           toasts st ++
           [mkToast "Error loading movie" "Please try again later"
              (Some "destructive")];
         navigated := navigated st; console := console st |}
  | inr data =>
      {| movie := Some data; showtimes := showtimes st; loading := false;
         selectedDate := selectedDate st; toasts := toasts st;
         navigated := navigated st; console := console st |}
  end.

(** [fetchShowtimes], given the answer of the store. *)
Definition fetchShowtimes (response : PgError + list Showtime) (st : State)
    : State :=
  match response with
  | inl error =>
      {| movie := movie st; showtimes := showtimes st; loading := loading st;
         selectedDate := selectedDate st; toasts := toasts st;
         navigated := navigated st;
         console := console st ++ ["Error fetching showtimes:"] |}
  | inr data =>
      {| movie := movie st; showtimes := data; loading := loading st;
         selectedDate :=
           match data with
           | first :: _ => show_date first
           | [] => selectedDate st
           end;
         toasts := toasts st; navigated := navigated st;
         console := console st |}
  end.

(** [onClick={() => setSelectedDate(date)}] of a date button. *)
Definition setSelectedDate (date : string) (st : State) : State :=
  {| movie := movie st; showtimes := showtimes st; loading := loading st;
     selectedDate := date; toasts := toasts st; navigated := navigated st;
     console := console st |}.

(** [Array.from(new Set(showtimes.map(s => s.show_date)))]. *)
Definition uniqueDates (st : State) : list string :=
  Js.unique (show_date <$> showtimes st).

(** [showtimes.filter(s => s.show_date === selectedDate)]. *)
Definition filteredShowtimes (st : State) : list Showtime :=
  filter (λ s, show_date s = selectedDate st) (showtimes st).

(** [handleBooking(showtimeId)] of a time slot. *)
Definition handleBooking (user : option User.t) (showtimeId : string)
    (st : State) : State :=
  match user with
  | None =>
      {| movie := movie st; showtimes := showtimes st; loading := loading st;
         selectedDate := selectedDate st;
         toasts :=
           toasts st ++
           [mkToast "Please sign in"
              "You need to be signed in to book tickets"
              (Some "destructive")];
         navigated := navigated st ++ ["/auth"];
         console := console st |}
  | Some _ =>
      {| movie := movie st; showtimes := showtimes st; loading := loading st;
         selectedDate := selectedDate st; toasts := toasts st;
         navigated := navigated st ++ ["/booking/" +:+ showtimeId];
         console := console st |}
  end.

End MovieDetails.

(** ** The front page: component [Index] *)

Module Index.

Record Movie := mkMovie {
  id : string;
  title : string;
  poster_url : option string;
  genres : list string;
  duration : Z;
}.

(** [filterMovies]: the list it hands to [setFilteredMovies]. The lower
    case of a string is a parameter. *)
Definition filterMovies (toLowerCase : string → string)
    (movies : list Movie) (searchTerm selectedGenre : string)
    : list Movie :=
  let filtered := movies in
  let filtered :=
    if bool_decide (searchTerm ≠ "") then
      filter (λ movie,
        Js.includes (toLowerCase (title movie)) (toLowerCase searchTerm)
          = true) filtered
    else filtered in
  let filtered :=
    if bool_decide (selectedGenre ≠ "") then
      filter (λ movie, selectedGenre ∈ genres movie) filtered
    else filtered in
  filtered.

(** [Array.from(new Set(movies.flatMap(m => m.genres)))]. *)
Definition allGenres (movies : list Movie) : list string :=
  Js.unique (movies ≫= genres).

End Index.

(** ** Row level security: the policies of the schema migration *)

Inductive app_role := admin | user_role.

Global Instance app_role_eq_dec : EqDecision app_role.
Proof. solve_decision. Defined.

Inductive Table :=
  | t_profiles | t_user_roles | t_movies | t_theater_halls | t_showtimes
  | t_bookings | t_booked_seats.

Inductive Command := SELECT | INSERT | UPDATE | DELETE.

Module Rls.

(** [public.has_role(_user_id, _role)]: is there a row of [user_roles] with
    this user and role; with a null user there is none. *)
Definition has_role (user_roles : list (string * app_role))
    (_user_id : option string) (_role : app_role) : bool :=
  match _user_id with
  | Some u => bool_decide ((u, _role) ∈ user_roles)
  | None => false
  end.

(** [auth.uid() = x], false when [auth.uid()] is null. *)
Definition uid_is (uid : option string) (x : string) : bool :=
  match uid with
  | Some u => bool_decide (u = x)
  | None => false
  end.

(** The policies of a table for a command, put together: the row passes
    when some policy for the command passes it, and a command with no
    policy passes no row. [owner] is the column the policies of the table
    compare with [auth.uid()]: [id] of [profiles], [user_id] of
    [bookings]. *)
Definition allows (user_roles : list (string * app_role))
    (uid : option string) (table : Table) (cmd : Command) (owner : string)
    : bool :=
  let is_admin := has_role user_roles uid admin in
  match table, cmd with
  | t_profiles, SELECT => true
  | t_profiles, UPDATE => uid_is uid owner
  | t_user_roles, SELECT => true
  | t_user_roles, INSERT => is_admin
  | t_user_roles, DELETE => is_admin
  | t_movies, SELECT => true
  | t_movies, (INSERT | UPDATE | DELETE) => is_admin
  | t_theater_halls, SELECT => true
  | t_theater_halls, (INSERT | UPDATE | DELETE) => is_admin
  | t_showtimes, SELECT => true
  | t_showtimes, (INSERT | UPDATE | DELETE) => is_admin
  | t_bookings, SELECT => (uid_is uid owner || is_admin) || is_admin
  | t_bookings, INSERT => uid_is uid owner
  | t_booked_seats, SELECT => true
  | t_booked_seats, INSERT =>
      match uid with Some _ => true | None => false end
  | t_booked_seats, DELETE => is_admin
  | _, _ => false
  end.

(** A request on [user_roles] through the API. *)
Inductive RoleRequest :=
  | InsertRole (user_id : string) (role : app_role)
  | DeleteRole (user_id : string) (role : app_role).

(** What a request does to [user_roles] in the session of [uid]: an insert
    the policy refuses is an error and one on an existing (user, role) a
    uniqueness violation, both leaving the table; a delete removes the
    rows the policy lets the session see. *)
Definition apply_request (user_roles : list (string * app_role))
    (uid : option string) (req : RoleRequest)
    : list (string * app_role) :=
  match req with
  | InsertRole u r =>
      if allows user_roles uid t_user_roles INSERT u then
        if bool_decide ((u, r) ∈ user_roles) then user_roles
        else user_roles ++ [(u, r)]
      else user_roles
  | DeleteRole u r =>
      if allows user_roles uid t_user_roles DELETE u then
        filter (λ row, row ≠ (u, r)) user_roles
      else user_roles
  end.

(** The table after the requests of several sessions, one after the
    other. *)
Definition apply_requests (user_roles : list (string * app_role))
    (reqs : list (option string * RoleRequest))
    : list (string * app_role) :=
  fold_left (λ roles req, apply_request roles req.1 req.2) reqs user_roles.

End Rls.

(** * Properties *)

(** ** Digits and decimal rendering *)

Module DigitsFacts.
Import Digits.

Lemma ends_in_digit_cons a s :
  s ≠ EmptyString → ends_in_digit (String a s) = ends_in_digit s.
Proof. by destruct s. Qed.

Lemma all_digits_app s d :
  all_digits (s +:+ d) = all_digits s && all_digits d.
Proof.
  induction s as [|a s IH]; [done|].
  change (all_digits (String a (s +:+ d))) with
    (is_digit a && all_digits (s +:+ d)).
  simpl. by rewrite IH, andb_assoc.
Qed.

Lemma all_digits_ends s :
  s ≠ EmptyString → all_digits s = true → ends_in_digit s = true.
Proof.
  induction s as [|a s IH]; [done|]. intros _ [Ha Hs]%andb_prop.
  destruct s as [|b s]; [done|].
  rewrite ends_in_digit_cons by done. by apply IH.
Qed.

(** A string that does not end in a digit, followed by digits only, splits
    in one way. *)
Lemma app_digits_inj s1 s2 d1 d2 :
  ends_in_digit s1 = false → ends_in_digit s2 = false →
  all_digits d1 = true → all_digits d2 = true →
  s1 +:+ d1 = s2 +:+ d2 → s1 = s2 ∧ d1 = d2.
Proof.
  revert s2. induction s1 as [|a s1 IH]; intros [|b s2] H1 H2 Hd1 Hd2 Heq.
  - done.
  - change (d1 = String b s2 +:+ d2) in Heq. rewrite Heq in Hd1.
    rewrite all_digits_app in Hd1. apply andb_prop in Hd1 as [Hd1 _].
    apply all_digits_ends in Hd1; [congruence|done].
  - change (String a s1 +:+ d1 = d2) in Heq. rewrite <-Heq in Hd2.
    rewrite all_digits_app in Hd2. apply andb_prop in Hd2 as [Hd2 _].
    apply all_digits_ends in Hd2; [congruence|done].
  - change (String a (s1 +:+ d1) = String b (s2 +:+ d2)) in Heq.
    injection Heq as -> Heq.
    destruct (IH s2) as [-> ->]; try done.
    + destruct s1; [done|]. by rewrite ends_in_digit_cons in H1.
    + destruct s2; [done|]. by rewrite ends_in_digit_cons in H2.
Qed.

Lemma is_digit_pretty_N_char x : is_digit (pretty_N_char x) = true.
Proof. unfold pretty_N_char. by repeat case_match. Qed.

Lemma all_digits_pretty_N_go x s :
  all_digits s = true → all_digits (pretty_N_go x s) = true.
Proof.
  revert s. induction (N.lt_wf_0 x) as [x _ IH]; intros s Hs.
  destruct (decide (x = 0)%N) as [->|Hx]; [by rewrite pretty_N_go_0|].
  rewrite pretty_N_go_step by lia. apply IH.
  - apply N.div_lt; lia.
  - simpl. by rewrite is_digit_pretty_N_char, Hs.
Qed.

Lemma all_digits_pretty_N (x : N) : all_digits (pretty x) = true.
Proof.
  unfold pretty, pretty_N. case_decide; [done|].
  by apply all_digits_pretty_N_go.
Qed.

(** The decimal rendering of a non-negative integer has digits only. *)
Lemma all_digits_pretty_Z (x : Z) : 0 ≤ x → all_digits (pretty x) = true.
Proof.
  destruct x as [|p|p]; intros Hx; [done| |lia].
  apply (all_digits_pretty_N (Npos p)).
Qed.

End DigitsFacts.

(** ** The layout loops *)

Module LayoutFacts.
Import Digits DigitsFacts Layout.

Lemma row_loop_seqZ fuel booked rowData col acc :
  cols rowData - col + 1 ≤ Z.of_nat fuel →
  row_loop fuel booked rowData col acc =
  acc ++ (seat_at booked rowData <$> seqZ col (cols rowData - col + 1)).
Proof.
  revert col acc.
  induction fuel as [|fuel IH]; intros col acc Hfuel; cbn [row_loop].
  - rewrite seqZ_nil by lia. by rewrite app_nil_r.
  - case_bool_decide as Hle.
    + rewrite IH by lia.
      rewrite (seqZ_cons col (cols rowData - col + 1)) by lia.
      replace (cols rowData - (col + 1) + 1)
        with (Z.pred (cols rowData - col + 1)) by lia.
      replace (col + 1) with (Z.succ col) by lia.
      by rewrite <-app_assoc.
    + rewrite seqZ_nil by lia. by rewrite app_nil_r.
Qed.

(** More fuel than [Z.to_nat cols] changes nothing: the loop has left
    through its test. *)
Lemma row_loop_fuel extra booked rowData acc :
  row_loop (Z.to_nat (cols rowData) + extra) booked rowData 1 acc =
  push_row booked acc rowData.
Proof.
  unfold push_row. rewrite !row_loop_seqZ by lia. done.
Qed.

Lemma push_row_app booked acc rowData :
  push_row booked acc rowData = acc ++ row_seats booked rowData.
Proof.
  unfold push_row, row_seats. rewrite row_loop_seqZ by lia.
  by replace (cols rowData - 1 + 1) with (cols rowData) by lia.
Qed.

Lemma generateSeats_from booked layout acc :
  fold_left (push_row booked) layout acc =
  acc ++ (layout ≫= row_seats booked).
Proof.
  revert acc. induction layout as [|rowData layout IH]; intros acc; simpl.
  - by rewrite app_nil_r.
  - rewrite IH, push_row_app. by rewrite <-app_assoc.
Qed.

Lemma generateSeats_bind booked layout :
  generateSeats booked layout = layout ≫= row_seats booked.
Proof. apply generateSeats_from. Qed.

Lemma length_generateSeats booked layout :
  Z.of_nat (length (generateSeats booked layout)) =
  foldr (λ rowData acc, Z.max 0 (cols rowData) + acc) 0 layout.
Proof.
  rewrite generateSeats_bind.
  induction layout as [|rowData layout IH]; [done|].
  rewrite bind_cons, length_app, Nat2Z.inj_add, IH. unfold row_seats.
  rewrite length_fmap, length_seqZ. cbn [foldr]. lia.
Qed.

Lemma elem_of_generateSeats booked layout seat :
  seat ∈ generateSeats booked layout ↔
  ∃ rowData c, rowData ∈ layout ∧ 1 ≤ c ≤ cols rowData ∧
               seat = seat_at booked rowData c.
Proof.
  rewrite generateSeats_bind, list_elem_of_bind. unfold row_seats. split.
  - intros (rowData & Hin & Hrow). apply list_elem_of_fmap in Hin as (c & -> & Hc).
    apply elem_of_seqZ in Hc. exists rowData, c. split_and!; [done|lia..|done].
  - intros (rowData & c & Hrow & Hc & ->). exists rowData. split; [|done].
    apply list_elem_of_fmap. exists c. split; [done|]. apply elem_of_seqZ. lia.
Qed.

(** Two seats with one label are at one place, when no row label ends in
    a digit. *)
Lemma seat_label_inj r1 r2 c1 c2 :
  ends_in_digit r1 = false → ends_in_digit r2 = false →
  1 ≤ c1 → 1 ≤ c2 →
  r1 +:+ pretty c1 = r2 +:+ pretty c2 → r1 = r2 ∧ c1 = c2.
Proof.
  intros H1 H2 Hc1 Hc2 Heq.
  apply app_digits_inj in Heq as [-> Heq];
    [|done|done|apply all_digits_pretty_Z; lia..].
  split; [done|]. by apply (inj pretty).
Qed.

Lemma NoDup_labels booked layout :
  NoDup (row <$> layout) →
  Forall (λ rowData, ends_in_digit (row rowData) = false) layout →
  NoDup (label <$> generateSeats booked layout).
Proof.
  rewrite generateSeats_bind.
  induction layout as [|rowData layout IH]; simpl; [constructor|].
  intros [Hnotin Hnodup]%NoDup_cons [Hrow Hrest]%Forall_cons.
  rewrite fmap_app. apply NoDup_app. split_and!.
  - unfold row_seats. rewrite <-list_fmap_compose.
    apply NoDup_fmap_2_strong; [|apply NoDup_seqZ].
    intros c1 c2 Hc1%elem_of_seqZ Hc2%elem_of_seqZ Heq. simpl in Heq.
    apply seat_label_inj in Heq as [_ ?]; [done|done|done|lia..].
  - intros lbl Hl Hr.
    apply list_elem_of_fmap in Hl as (s1 & -> & Hs1).
    apply list_elem_of_fmap in Hs1 as (c1 & -> & Hc1%elem_of_seqZ).
    apply list_elem_of_fmap in Hr as (s2 & Heq & Hs2).
    apply list_elem_of_bind in Hs2 as (r2 & Hs2 & Hr2).
    apply list_elem_of_fmap in Hs2 as (c2 & -> & Hc2%elem_of_seqZ).
    simpl in Heq. apply seat_label_inj in Heq as [Heq _]; [|done| |lia..].
    + apply Hnotin. rewrite Heq. by apply list_elem_of_fmap_2.
    + by eapply (proj1 (Forall_forall _ _) Hrest).
  - by apply IH.
Qed.

End LayoutFacts.

(** ** The store *)

Module DbFacts.
Import Db.

Lemma check_booked_seat_None db table r :
  check_booked_seat db table r = None ↔
  showtime_exists db (BookedSeat.showtime_id r) = true ∧
  booking_exists db (BookedSeat.booking_id r) = true ∧
  BookedSeat.key r ∉ BookedSeat.key <$> table.
Proof.
  unfold check_booked_seat.
  destruct (showtime_exists _ _), (booking_exists _ _); simpl;
    [case_bool_decide|..]; split; try done; by intros (? & ? & ?).
Qed.

(** A statement that goes through has appended its rows, in order. *)
Lemma insert_rows_inr db rows table table' :
  insert_rows db table rows = inr table' → table' = table ++ rows.
Proof.
  revert table. induction rows as [|r rows IH]; intros table; simpl.
  - intros [= <-]. by rewrite app_nil_r.
  - destruct (check_booked_seat db table r); [done|].
    intros ->%IH. by rewrite <-app_assoc.
Qed.

(** One row on a (showtime, seat) that is taken fails the statement. *)
Lemma insert_rows_conflict db rows table r :
  r ∈ rows → BookedSeat.key r ∈ BookedSeat.key <$> table →
  ∃ e, insert_rows db table rows = inl e.
Proof.
  revert table. induction rows as [|r' rows IH]; intros table Hr Hkey.
  - by apply elem_of_nil in Hr.
  - simpl. destruct (check_booked_seat db table r') as [e|] eqn:Hcheck;
      [by exists e|].
    apply check_booked_seat_None in Hcheck as (_ & _ & Hnew).
    apply elem_of_cons in Hr as [->|Hr]; [done|].
    apply IH; [done|]. rewrite fmap_app. apply elem_of_app. by left.
Qed.

(** With its foreign keys in place, a statement can fail on the
    uniqueness constraint only. *)
Lemma insert_rows_inl db rows table e :
  (∀ r, r ∈ rows →
        showtime_exists db (BookedSeat.showtime_id r) = true ∧
        booking_exists db (BookedSeat.booking_id r) = true) →
  insert_rows db table rows = inl e → e = unique_error.
Proof.
  revert table. induction rows as [|r rows IH]; intros table Hfk; simpl.
  - done.
  - destruct (check_booked_seat db table r) as [e'|] eqn:Hcheck.
    + intros [= <-]. unfold check_booked_seat in Hcheck.
      destruct (Hfk r) as [H1 H2]; [by left|].
      rewrite H1, H2 in Hcheck. simpl in Hcheck.
      by case_bool_decide; simplify_eq.
    + apply IH. intros r' Hr'. apply Hfk. by right.
Qed.

(** A statement that goes through found every key new. *)
Lemma insert_rows_NoDup db rows table table' :
  NoDup (BookedSeat.key <$> table) →
  insert_rows db table rows = inr table' →
  NoDup (BookedSeat.key <$> table').
Proof.
  revert table. induction rows as [|r rows IH]; intros table Hnodup; simpl.
  - by intros [= <-].
  - destruct (check_booked_seat db table r) eqn:Hcheck; [done|].
    apply check_booked_seat_None in Hcheck as (_ & _ & Hnew).
    apply IH. rewrite fmap_app. apply NoDup_app. split_and!; [done| |].
    + intros k Hk ->%list_elem_of_singleton. done.
    + apply NoDup_singleton.
Qed.

Lemma insert_rows_fk db rows table table' r :
  insert_rows db table rows = inr table' → r ∈ rows →
  booking_exists db (BookedSeat.booking_id r) = true.
Proof.
  revert table. induction rows as [|r' rows IH]; intros table; simpl.
  - intros _ []%elem_of_nil.
  - destruct (check_booked_seat db table r') eqn:Hcheck; [done|].
    apply check_booked_seat_None in Hcheck as (_ & Hfk & _).
    intros Hins [->|Hr]%elem_of_cons; [done|]. by eapply IH.
Qed.

(** A statement whose rows have their foreign keys and new, pairwise
    different keys goes through. *)
Lemma insert_rows_ok db rows table :
  (∀ r, r ∈ rows →
        showtime_exists db (BookedSeat.showtime_id r) = true ∧
        booking_exists db (BookedSeat.booking_id r) = true) →
  NoDup (BookedSeat.key <$> rows) →
  (∀ r, r ∈ rows → BookedSeat.key r ∉ BookedSeat.key <$> table) →
  insert_rows db table rows = inr (table ++ rows).
Proof.
  revert table. induction rows as [|r rows IH]; intros table Hfk Hnd Hnew.
  - simpl. by rewrite app_nil_r.
  - simpl. apply NoDup_cons in Hnd as [Hr Hnd].
    destruct (check_booked_seat db table r) as [e|] eqn:Hcheck.
    + unfold check_booked_seat in Hcheck.
      destruct (Hfk r) as [H1 H2]; [by left|].
      rewrite H1, H2 in Hcheck. simpl in Hcheck.
      case_bool_decide as Hk; [|done]. destruct (Hnew r); [by left|done].
    + rewrite IH; [by rewrite <-app_assoc| |done|].
      * intros r' Hr'. apply Hfk. by right.
      * intros r' Hr'. rewrite fmap_app, not_elem_of_app. split.
        -- apply Hnew. by right.
        -- intros Heq%list_elem_of_singleton. apply Hr. rewrite <-Heq.
           by apply list_elem_of_fmap_2.
Qed.

(** The store takes a booking row exactly when its total is in the range
    of the column, its user has a profile and its showtime exists. *)
Lemma check_booking_None db u sid price :
  check_booking db u sid price = None ↔
  Z.abs price < 10 ^ 10 ∧ u ∈ profiles db ∧ showtime_exists db sid = true.
Proof.
  unfold check_booking, decimal_10_2, profile_exists.
  repeat case_bool_decide; destruct (showtime_exists db sid); simpl;
    split; try done; by intros (? & ? & ?).
Qed.

Lemma check_booking_grows db db' u sid price :
  profiles db' = profiles db → showtimes db' = showtimes db →
  check_booking db' u sid price = check_booking db u sid price.
Proof.
  intros Hp Hs.
  unfold check_booking, profile_exists, showtime_exists. by rewrite Hp, Hs.
Qed.

Lemma insert_booking_inr db u sid seats price db' b :
  insert_booking db u sid seats price = (db', inr b) →
  showtime_exists db sid = true ∧
  b = {| Booking.id := next_uuid db; Booking.user_id := u;
         Booking.showtime_id := sid; Booking.seats := seats;
         Booking.total_price := price;
         Booking.booking_status := "confirmed" |} ∧
  db' = {| profiles := profiles db; showtimes := showtimes db;
           bookings := bookings db ++ [b];
           booked_seats := booked_seats db;
           next_uuid := N.succ (next_uuid db) |}.
Proof.
  unfold insert_booking.
  destruct (check_booking db u sid price) eqn:Hcheck; [done|].
  apply check_booking_None in Hcheck as (_ & _ & Hex).
  by intros [= <- <-].
Qed.

Lemma insert_booking_inl db u sid seats price db' e :
  insert_booking db u sid seats price = (db', inl e) →
  db' = db ∧ check_booking db u sid price = Some e.
Proof.
  unfold insert_booking. destruct (check_booking db u sid price); [|done].
  by intros [= <- <-].
Qed.

Lemma insert_booking_ok db u sid seats price :
  check_booking db u sid price = None →
  insert_booking db u sid seats price =
    (let b := {| Booking.id := next_uuid db; Booking.user_id := u;
                 Booking.showtime_id := sid; Booking.seats := seats;
                 Booking.total_price := price;
                 Booking.booking_status := "confirmed" |} in
     ({| profiles := profiles db; showtimes := showtimes db;
         bookings := bookings db ++ [b];
         booked_seats := booked_seats db;
         next_uuid := N.succ (next_uuid db) |}, inr b)).
Proof. intros Hcheck. unfold insert_booking. by rewrite Hcheck. Qed.

Lemma wf_alt db :
  wf db ↔
  NoDup (BookedSeat.key <$> booked_seats db) ∧
  (∀ r, r ∈ booked_seats db →
        BookedSeat.booking_id r ∈ Booking.id <$> bookings db) ∧
  (∀ b, b ∈ bookings db → (Booking.id b < next_uuid db)%N).
Proof. unfold wf. by rewrite !Forall_forall. Qed.

Lemma insert_booking_wf db u sid seats price db' res :
  wf db → insert_booking db u sid seats price = (db', res) → wf db'.
Proof.
  intros Hwf. pose proof Hwf as (Huniq & Hfk & Hfresh)%wf_alt.
  unfold insert_booking.
  destruct (check_booking db u sid price); intros [= <- <-]; [done|].
  apply wf_alt. split_and!; simpl.
  - done.
  - intros r Hr. rewrite fmap_app, elem_of_app. left. by apply Hfk.
  - intros b [Hb| ->%list_elem_of_singleton]%elem_of_app; simpl.
    + apply Hfresh in Hb. lia.
    + lia.
Qed.

Lemma insert_booked_seats_wf db rows db' res :
  wf db → insert_booked_seats db rows = (db', res) → wf db'.
Proof.
  intros Hwf. pose proof Hwf as (Huniq & Hfk & Hfresh)%wf_alt.
  unfold insert_booked_seats.
  destruct (insert_rows db (booked_seats db) rows) as [e|table] eqn:Hins;
    intros [= <- <-]; [done|].
  apply wf_alt. split_and!; simpl.
  - by eapply insert_rows_NoDup.
  - intros r Hr. pose proof (insert_rows_inr _ _ _ _ Hins) as ->.
    apply elem_of_app in Hr as [Hr|Hr]; [by apply Hfk|].
    eapply insert_rows_fk in Hins; [|done].
    unfold booking_exists in Hins. by apply bool_decide_eq_true in Hins.
  - done.
Qed.

Lemma filter_none {A} (P : A → Prop) `{∀ x, Decision (P x)} (l : list A) :
  (∀ x, x ∈ l → ¬ P x) → filter P l = [].
Proof.
  induction l as [|x l IH]; intros Hall; [done|].
  rewrite filter_cons_False by (apply Hall; by left).
  apply IH. intros y Hy. apply Hall. by right.
Qed.

Lemma filter_all {A} (P : A → Prop) `{∀ x, Decision (P x)} (l : list A) :
  (∀ x, x ∈ l → P x) → filter P l = l.
Proof.
  induction l as [|x l IH]; intros Hall; [done|].
  rewrite filter_cons_True by (apply Hall; by left).
  f_equal. apply IH. intros y Hy. apply Hall. by right.
Qed.

(** In a well-formed store no reservation refers to the identifier the
    next booking will get. *)
Lemma reservations_of_next db :
  wf db → reservations_of db (next_uuid db) = [].
Proof.
  intros (_ & Hfk & Hfresh)%wf_alt. apply filter_none.
  intros r Hr Heq. apply Hfk in Hr.
  apply list_elem_of_fmap in Hr as (b & Hid & Hb%Hfresh). lia.
Qed.

Lemma filter_new_reservations db rows :
  wf db →
  (∀ r, r ∈ rows → BookedSeat.booking_id r = next_uuid db) →
  filter (λ r, BookedSeat.booking_id r = next_uuid db)
    (booked_seats db ++ rows) = rows.
Proof.
  intros Hwf Hrows. rewrite filter_app.
  change (filter _ (booked_seats db))
    with (reservations_of db (next_uuid db)).
  rewrite reservations_of_next by done. by rewrite filter_all.
Qed.

End DbFacts.

(** ** The handlers of the page *)

Import Digits Layout Db Page.

Module PageFacts.

Lemma selectedSeats_fetch p db1 db2 st :
  selectedSeats (fetchShowtimeAndSeats p db1 db2 st) = selectedSeats st.
Proof.
  unfold fetchShowtimeAndSeats. by destruct (select_showtime db1 _).
Qed.

(** What a fetch sets when the showtime is read. *)
Lemma fetchShowtimeAndSeats_read p db1 db2 st showtimeData :
  select_showtime db1 (showtimeId p) = inr showtimeData →
  fetchShowtimeAndSeats p db1 db2 st =
    setLoading false
      (setSeats
         (generateSeats
            (list_to_set (booked_labels db2 (showtimeId p)))
            (Showtime.seat_layout showtimeData))
         (setShowtime (Some showtimeData) st)).
Proof. intros Hsel. unfold fetchShowtimeAndSeats. by rewrite Hsel. Qed.

Lemma selectedSeats_begin p st db db' st' r :
  handleBooking_begin p st db = (db', st', r) →
  selectedSeats st' = selectedSeats st.
Proof.
  unfold handleBooking_begin.
  destruct (user p), (showtime st); try by intros [= <- <- <-].
  case_bool_decide; [by intros [= <- <- <-]|].
  destruct (insert_booking _ _ _ _ _) as [db1 [e|b]]; by intros [= <- <- <-].
Qed.

(** The page after the navigation of a confirmed submission: off the
    tree, with the toasts and the history of the application. *)
Lemma navigate_bookings st :
  navigate "/bookings" st =
    {| seats := []; selectedSeats := []; showtime := None; loading := true;
       booking := false; toasts := toasts st;
       navigated := navigated st ++ ["/bookings"]; mounted := false |}.
Proof. reflexivity. Qed.

(** The two ways [handleBooking] ends once the booking row is in. *)
Lemma handleBooking_finish_state p pend st db db' st' o :
  handleBooking_finish p pend st db = (db', st', o) →
  (∃ e, o = Failed e ∧
        st' = setBooking false (toast (booking_failed e) st)) ∨
  (o = Confirmed ∧
   st' = {| seats := []; selectedSeats := []; showtime := None;
            loading := true; booking := false;
            toasts := toasts st ++ [booking_confirmed (submitted pend)];
            navigated := navigated st ++ ["/bookings"];
            mounted := false |}).
Proof.
  unfold handleBooking_finish.
  destruct (insert_booked_seats _ _) as [db1 [e|]]; intros [= <- <- <-].
  - left. by exists e.
  - right. split; [done|]. by rewrite navigate_bookings.
Qed.

Lemma selectedSeats_finish p pend st db db' st' o :
  handleBooking_finish p pend st db = (db', st', o) →
  o ≠ Confirmed → selectedSeats st' = selectedSeats st.
Proof.
  intros [(e & -> & ->)|[-> _]]%handleBooking_finish_state; done.
Qed.

Lemma selectedSeats_handleBooking p st db db' st' o :
  handleBooking p st db = (db', st', o) →
  o ≠ Confirmed → selectedSeats st' = selectedSeats st.
Proof.
  unfold handleBooking.
  destruct (handleBooking_begin p st db) as [[db1 st1] [o1|pend]] eqn:Hbegin.
  - intros [= <- <- <-] _. by eapply selectedSeats_begin.
  - intros Hfin Ho. rewrite (selectedSeats_finish _ _ _ _ _ _ _ Hfin Ho).
    by eapply selectedSeats_begin.
Qed.

(** A confirmed submission leaves the page off the tree, its cells gone. *)
Lemma handleBooking_confirmed_state p st db db' st' :
  handleBooking p st db = (db', st', Confirmed) →
  st' = {| seats := []; selectedSeats := []; showtime := None;
           loading := true; booking := false;
           toasts := toasts st ++ [booking_confirmed (selectedSeats st)];
           navigated := navigated st ++ ["/bookings"];
           mounted := false |}.
Proof.
  unfold handleBooking, handleBooking_begin.
  destruct (user p), (showtime st); try done.
  case_bool_decide; [done|].
  destruct (insert_booking _ _ _ _ _) as [db1 [e|b]]; [done|].
  by intros [[? [? _]]|[_ ->]]%handleBooking_finish_state.
Qed.

(** A submission leaves a selection that repeats no seat. *)
Lemma NoDup_handleBooking p st db db' st' o :
  handleBooking p st db = (db', st', o) →
  NoDup (selectedSeats st) → NoDup (selectedSeats st').
Proof.
  intros Hh Hnd. destruct o.
  - by rewrite (selectedSeats_handleBooking _ _ _ _ _ _ Hh).
  - by rewrite (selectedSeats_handleBooking _ _ _ _ _ _ Hh).
  - rewrite (handleBooking_confirmed_state _ _ _ _ _ Hh). constructor.
Qed.

(** The guard of [handleBooking]. *)
Lemma handleBooking_begin_guard p st db :
  user p = None ∨ showtime st = None ∨ selectedSeats st = [] →
  handleBooking_begin p st db = (db, st, inl Returned).
Proof.
  unfold handleBooking_begin. intros [->|[->| ->]]; [done| |].
  - by destruct (user p).
  - by destruct (user p), (showtime st).
Qed.

(** Past the guard the submission is in the hands of the store. *)
Lemma handleBooking_begin_past_guard p st db u sh :
  user p = Some u → showtime st = Some sh → selectedSeats st ≠ [] →
  handleBooking_begin p st db =
    match insert_booking db (User.id u) (showtimeId p) (selectedSeats st)
            (Showtime.ticket_price sh *
             Z.of_nat (length (selectedSeats st))) with
    | (db', inl bookingError) =>
        (db',
         setBooking false
           (toast (booking_failed bookingError) (setBooking true st)),
         inl (Failed bookingError))
    | (db', inr row) =>
        (db', setBooking true st,
         inr {| submitted := selectedSeats st; bookingData := row |})
    end.
Proof.
  intros Hu Hsh Hsel. unfold handleBooking_begin. rewrite Hu, Hsh.
  case_bool_decide as Hlen; [|done].
  by apply length_zero_iff_nil in Hlen.
Qed.

(** A seat of the submission that is reserved when the seats are inserted
    fails the insert and leaves the store as it is. *)
Lemma handleBooking_finish_conflict p pend st db seatLabel :
  seatLabel ∈ submitted pend → reserved db (showtimeId p) seatLabel →
  ∃ e, handleBooking_finish p pend st db =
         (db, setBooking false (toast (booking_failed e) st), Failed e).
Proof.
  intros Hin Hres. unfold handleBooking_finish, insert_booked_seats.
  destruct (DbFacts.insert_rows_conflict db (seatReservations p pend)
              (booked_seats db)
              {| BookedSeat.showtime_id := showtimeId p;
                 BookedSeat.seat_label := seatLabel;
                 BookedSeat.booking_id := Booking.id (bookingData pend) |})
    as [e He].
  - unfold seatReservations.
    by apply (list_elem_of_fmap_2 (λ l, BookedSeat.mk _ l _)).
  - done.
  - rewrite He. by exists e.
Qed.

(** Once the booking row is in, the seats insert can fail on the
    uniqueness constraint only, and a failed insert leaves the store as it
    is. *)
Lemma handleBooking_finish_failed p pend st db db' st' e :
  showtime_exists db (showtimeId p) = true →
  booking_exists db (Booking.id (bookingData pend)) = true →
  handleBooking_finish p pend st db = (db', st', Failed e) →
  e = Db.unique_error ∧ db' = db ∧
  st' = setBooking false (toast (booking_failed e) st).
Proof.
  intros Hsh Hbk. unfold handleBooking_finish, insert_booked_seats.
  destruct (insert_rows db (booked_seats db) (seatReservations p pend))
    as [e'|table] eqn:Hins; [|done].
  intros [= <- <- <-]. split; [|done].
  eapply DbFacts.insert_rows_inl; [|done].
  intros r (l & -> & _)%list_elem_of_fmap. by simpl.
Qed.

(** A confirmed insert has appended one reservation for every submitted
    seat. *)
Lemma handleBooking_finish_confirmed p pend st db db' st' :
  handleBooking_finish p pend st db = (db', st', Confirmed) →
  db' = {| profiles := profiles db; showtimes := showtimes db;
           bookings := bookings db;
           booked_seats := booked_seats db ++ seatReservations p pend;
           next_uuid := next_uuid db |} ∧
  st' = setBooking false
          (navigate "/bookings"
             (toast (booking_confirmed (submitted pend)) st)).
Proof.
  unfold handleBooking_finish, insert_booked_seats.
  destruct (insert_rows db (booked_seats db) (seatReservations p pend))
    as [e'|table] eqn:Hins; [done|].
  intros [= <- <-]. by apply DbFacts.insert_rows_inr in Hins as ->.
Qed.

(** What a confirmed submission has done. *)
Lemma handleBooking_confirmed_inv p st db db' st' :
  handleBooking p st db = (db', st', Confirmed) →
  ∃ u sh,
    user p = Some u ∧ showtime st = Some sh ∧
    db' = {| profiles := profiles db;
             showtimes := showtimes db;
             bookings := bookings db ++ [new_booking p st db u sh];
             booked_seats :=
               booked_seats db ++
               ((λ seatLabel,
                   BookedSeat.mk (showtimeId p) seatLabel (next_uuid db))
                <$> selectedSeats st);
             next_uuid := N.succ (next_uuid db) |}.
Proof.
  unfold handleBooking, handleBooking_begin.
  destruct (user p) as [u|], (showtime st) as [sh|]; try done.
  case_bool_decide; [done|].
  destruct (insert_booking _ _ _ _ _) as [db1 [e|b]] eqn:Hb; [done|].
  apply DbFacts.insert_booking_inr in Hb as (_ & -> & ->).
  intros [-> _]%handleBooking_finish_confirmed.
  by exists u, sh.
Qed.

Lemma wf_handleBooking p st db db' st' o :
  wf db → handleBooking p st db = (db', st', o) → wf db'.
Proof.
  intros Hwf. unfold handleBooking, handleBooking_begin.
  destruct (user p) as [u|], (showtime st) as [sh|];
    try by intros [= <- _ _].
  case_bool_decide; [by intros [= <- _ _]|].
  destruct (insert_booking _ _ _ _ _) as [db1 [e|b]] eqn:Hb;
    apply DbFacts.insert_booking_wf in Hb; try done.
  - by intros [= <- _ _].
  - unfold handleBooking_finish.
    destruct (insert_booked_seats db1 _) as [db2 res] eqn:Hins.
    apply DbFacts.insert_booked_seats_wf in Hins; [|done].
    by destruct res; intros [= <- _ _].
Qed.

Lemma message_nonempty e : message e ≠ "".
Proof. by destruct e. Qed.

Lemma toggled_not_in (seatLabel : string) prev :
  seatLabel ∉ prev → toggled seatLabel prev = prev ++ [seatLabel].
Proof. intros. unfold toggled. by rewrite bool_decide_eq_false_2. Qed.

Lemma toggled_in (seatLabel : string) prev :
  seatLabel ∈ prev →
  toggled seatLabel prev = filter (λ s, s ≠ seatLabel) prev.
Proof. intros. unfold toggled. by rewrite bool_decide_eq_true_2. Qed.

Lemma filter_other_id (seatLabel : string) (prev : list string) :
  seatLabel ∉ prev → filter (λ s, s ≠ seatLabel) prev = prev.
Proof.
  induction prev as [|s prev IH]; [done|].
  intros [Hne Hnot]%not_elem_of_cons.
  rewrite filter_cons_True by done. by rewrite IH.
Qed.

Lemma not_elem_of_filter_other (seatLabel : string) (prev : list string) :
  seatLabel ∉ filter (λ s, s ≠ seatLabel) prev.
Proof. by intros [? _]%list_elem_of_filter. Qed.

Lemma toggled_twice_not_in (seatLabel : string) prev :
  seatLabel ∉ prev → toggled seatLabel (toggled seatLabel prev) = prev.
Proof.
  intros Hnot. rewrite (toggled_not_in _ prev) by done.
  rewrite toggled_in by (apply elem_of_app; right; by left).
  rewrite filter_app, filter_other_id by done.
  rewrite filter_cons_False by (by intros ?). by rewrite app_nil_r.
Qed.

Lemma toggled_twice_elem (seatLabel : string) prev s :
  s ∈ toggled seatLabel (toggled seatLabel prev) ↔ s ∈ prev.
Proof.
  destruct (decide (seatLabel ∈ prev)) as [Hin|Hnot].
  - rewrite (toggled_in _ prev) by done.
    rewrite toggled_not_in by apply not_elem_of_filter_other.
    rewrite elem_of_app, list_elem_of_filter, list_elem_of_singleton.
    destruct (decide (s = seatLabel)) as [->|Hne].
    + split; [done|by right].
    + split; [by intros [[_ ?]|?]|by left].
  - by rewrite toggled_twice_not_in.
Qed.

Lemma toggled_NoDup (seatLabel : string) prev :
  NoDup prev → NoDup (toggled seatLabel prev).
Proof.
  intros Hnd. unfold toggled. case_bool_decide as Hin.
  - by apply NoDup_filter.
  - apply NoDup_app. split_and!; [done| |apply NoDup_singleton].
    by intros s Hs ->%list_elem_of_singleton.
Qed.

Lemma toggleSeat_NoDup seatLabel isBooked st :
  NoDup (selectedSeats st) →
  NoDup (selectedSeats (toggleSeat seatLabel isBooked st)).
Proof.
  intros Hnd. unfold toggleSeat. destruct isBooked; [done|].
  by apply toggled_NoDup.
Qed.

End PageFacts.

(** ** The Seat Layout Resolver *)

(** C5, as the code has it. For every layout the resolver returns the seats
    of its rows in declaration order, row after row, each row giving the
    columns [1..cols] with the label [row ++ decimal col]: a row whose
    count is not positive gives none, so the number of seats is the sum of
    the counts when no count is negative. The labels are pairwise different
    when the row labels are and none of them ends in a decimal digit. *)
Theorem generateSeats_spec (bookedSeatLabels : gset string)
    (layout : list RowData) :
  generateSeats bookedSeatLabels layout =
    layout ≫= (λ rowData,
      seat_at bookedSeatLabels rowData <$> seqZ 1 (cols rowData)) ∧
  Z.of_nat (length (generateSeats bookedSeatLabels layout)) =
    foldr (λ rowData acc, Z.max 0 (cols rowData) + acc) 0 layout ∧
  (Forall (λ rowData, 0 ≤ cols rowData) layout →
   Z.of_nat (length (generateSeats bookedSeatLabels layout)) =
     sum_cols layout) ∧
  (NoDup (row <$> layout) →
   Forall (λ rowData, ends_in_digit (row rowData) = false) layout →
   NoDup (label <$> generateSeats bookedSeatLabels layout)).
Proof.
  split_and!.
  - apply LayoutFacts.generateSeats_bind.
  - apply LayoutFacts.length_generateSeats.
  - intros Hpos. rewrite LayoutFacts.length_generateSeats. unfold sum_cols.
    induction Hpos as [|rowData layout' Hrow _ IH]; simpl; [done|].
    rewrite IH. lia.
  - apply LayoutFacts.NoDup_labels.
Qed.

(** The hall of the scenario: seats A1, A2, B1, B2, four of them, all
    different. *)
Lemma generateSeats_spec_witness :
  label <$> generateSeats ∅ Scenario.hall = ["A1"; "A2"; "B1"; "B2"] ∧
  Z.of_nat (length (generateSeats ∅ Scenario.hall)) =
    sum_cols Scenario.hall ∧
  NoDup (label <$> generateSeats ∅ Scenario.hall).
Proof.
  pose proof (generateSeats_spec ∅ Scenario.hall) as (Heq & _ & Hsum & Hnd).
  split_and!.
  - rewrite Heq. vm_compute. reflexivity.
  - apply Hsum. apply (bool_decide_unpack _). vm_compute. exact I.
  - apply Hnd.
    + apply (bool_decide_unpack _). vm_compute. exact I.
    + apply (bool_decide_unpack _). vm_compute. exact I.
Defined.

(** C5 as stated fails: rows A (11 seats) and A1 (1 seat) both produce the
    label A11, and a row with the count -1 makes the number of seats differ
    from the sum of the counts. *)
Lemma generateSeats_not_distinct :
  ¬ NoDup (label <$> generateSeats ∅ Scenario.clashing_hall) ∧
  Z.of_nat (length (generateSeats ∅ Scenario.negative_hall)) ≠
    sum_cols Scenario.negative_hall.
Proof.
  split.
  - apply (bool_decide_eq_false_1 _). vm_compute. reflexivity.
  - vm_compute. discriminate.
Qed.

(** C6, as the code has it. The resolver checks nothing about the layout
    and has no failure of its own: whenever the showtime is read, the fetch
    shows no error and sets the seats for every layout. Each seat it sets
    comes from a row descriptor at a column between 1 and that row's count,
    so a row with a non-positive count gives no seat, and each seat carries
    the row's type tag as it is, missing or not. *)
Theorem fetchShowtimeAndSeats_any_layout (p : Props) (db1 db2 : Store)
    (st : State) (showtimeData : Showtime.t) :
  select_showtime db1 (showtimeId p) = inr showtimeData →
  let st' := fetchShowtimeAndSeats p db1 db2 st in
  toasts st' = toasts st ∧
  showtime st' = Some showtimeData ∧
  seats st' =
    generateSeats (list_to_set (booked_labels db2 (showtimeId p)))
      (Showtime.seat_layout showtimeData) ∧
  ∀ seat, seat ∈ seats st' ↔
    ∃ rowData c, rowData ∈ Showtime.seat_layout showtimeData ∧
      1 ≤ c ≤ cols rowData ∧
      seat = seat_at (list_to_set (booked_labels db2 (showtimeId p)))
               rowData c.
Proof.
  intros Hsel st'. subst st'.
  rewrite (PageFacts.fetchShowtimeAndSeats_read _ _ _ _ _ Hsel). simpl.
  split_and!; try done.
  intros seat. apply LayoutFacts.elem_of_generateSeats.
Qed.

Lemma fetchShowtimeAndSeats_any_layout_witness :
  let st' :=
    fetchShowtimeAndSeats Scenario.alice Scenario.db0 Scenario.db0 initial in
  toasts st' = [] ∧ label <$> seats st' = ["A1"; "A2"; "B1"; "B2"].
Proof.
  destruct (fetchShowtimeAndSeats_any_layout Scenario.alice Scenario.db0
              Scenario.db0 initial Scenario.s1)
    as (Htoasts & _ & Hseats & _); [reflexivity|].
  split; [exact Htoasts|]. rewrite Hseats. vm_compute. reflexivity.
Defined.

(** C6 as stated fails: a layout with a row of zero seats and a row without
    a type tag is resolved without any error; the first row gives no seat
    and the seats of the second have no type. *)
Lemma malformed_layout_is_accepted :
  let st' :=
    fetchShowtimeAndSeats Scenario.alice Scenario.db_malformed
      Scenario.db_malformed initial in
  toasts st' = [] ∧
  seats st' =
    [ {| label := "B1"; seat_row := "B"; col := 1; seat_type := None;
         isBooked := false |};
      {| label := "B2"; seat_row := "B"; col := 2; seat_type := None;
         isBooked := false |} ].
Proof. vm_compute. split; reflexivity. Qed.

(** ** The Selection State Machine *)

(** C8. A toggle on a booked seat changes nothing. A toggle on a seat that
    is not booked appends the label when the selection does not hold it and
    removes it when it does, the other labels staying; two such toggles in
    a row give a selection with the members it had (the very same list when
    the label was not selected, a permutation of it in general). A
    selection without a repeated label has none after a toggle, and no page
    ever holds a label twice, whatever has happened since it was mounted. *)
Theorem toggleSeat_spec (seatLabel : string) (st : State) :
  let once := toggleSeat seatLabel false st in
  let twice := toggleSeat seatLabel false once in
  toggleSeat seatLabel true st = st ∧
  ((seatLabel ∉ selectedSeats st) →
   selectedSeats once = selectedSeats st ++ [seatLabel] ∧ twice = st) ∧
  (seatLabel ∈ selectedSeats st →
   (seatLabel ∉ selectedSeats once) ∧
   (∀ s, s ≠ seatLabel →
         (s ∈ selectedSeats once ↔ s ∈ selectedSeats st))) ∧
  (∀ s, s ∈ selectedSeats twice ↔ s ∈ selectedSeats st) ∧
  (NoDup (selectedSeats st) →
   NoDup (selectedSeats once) ∧ selectedSeats twice ≡ₚ selectedSeats st) ∧
  (∀ p events, NoDup (selectedSeats (Trace.after p events))).
Proof.
  intros once twice.
  assert (Hmem : ∀ s, s ∈ selectedSeats twice ↔ s ∈ selectedSeats st)
    by apply PageFacts.toggled_twice_elem.
  split_and!.
  - done.
  - intros Hnot. split; [by apply PageFacts.toggled_not_in|].
    subst once twice. destruct st. unfold toggleSeat, setSelectedSeats.
    simpl in *. f_equal. by apply PageFacts.toggled_twice_not_in.
  - intros Hin. subst once. unfold toggleSeat. simpl.
    rewrite PageFacts.toggled_in by done. split.
    + apply PageFacts.not_elem_of_filter_other.
    + intros s Hs. rewrite list_elem_of_filter. by split; [intros [_ ?]|].
  - done.
  - intros Hnd. split; [by apply PageFacts.toggleSeat_NoDup|].
    apply NoDup_Permutation; [|done|done].
    by do 2 apply PageFacts.toggleSeat_NoDup.
  - intros p events. unfold Trace.after.
    assert (Hgen : ∀ st0, NoDup (selectedSeats st0) →
              NoDup (selectedSeats (fold_left (Trace.react p) events st0))).
    { induction events as [|ev events IH]; intros st0 Hnd; [done|].
      cbn [fold_left]. apply IH. unfold Trace.react.
      destruct (mounted st0); [|done].
      destruct ev as [l b|db1 db2|db].
      - by apply PageFacts.toggleSeat_NoDup.
      - unfold on_booked_seats_change.
        by rewrite PageFacts.selectedSeats_fetch.
      - destruct (handleBooking p st0 db) as [[db' st'] o] eqn:Hh.
        cbn [fst snd]. by apply (PageFacts.NoDup_handleBooking _ _ _ _ _ _ Hh). }
    apply Hgen. constructor.
Qed.

(** A selection of A1 and A2: a toggle on the booked B1 does nothing,
    toggles on the free B1 add and then remove it, and two toggles on A1
    leave the members A1 and A2. *)
Lemma toggleSeat_spec_witness :
  let st := Scenario.picked Scenario.alice Scenario.db0 ["A1"; "A2"] in
  toggleSeat "B1" true st = st ∧
  selectedSeats (toggleSeat "B1" false st) = ["A1"; "A2"; "B1"] ∧
  toggleSeat "B1" false (toggleSeat "B1" false st) = st ∧
  ("A1" ∉ selectedSeats (toggleSeat "A1" false st)) ∧
  selectedSeats (toggleSeat "A1" false (toggleSeat "A1" false st)) ≡ₚ
    ["A1"; "A2"].
Proof.
  intros st.
  pose proof (toggleSeat_spec "B1" st) as (Hbooked & Hadd & _).
  pose proof (toggleSeat_spec "A1" st) as (_ & _ & Hremove & _ & Hperm & _).
  destruct Hadd as [Hadd Hback].
  { apply (bool_decide_unpack _). vm_compute. exact I. }
  destruct Hremove as [Hremove _].
  { apply (bool_decide_unpack _). vm_compute. exact I. }
  destruct Hperm as [_ Hperm].
  { apply (bool_decide_unpack _). vm_compute. exact I. }
  split_and!; [exact Hbooked|exact Hadd|exact Hback|exact Hremove|exact Hperm].
Defined.

(** ** Submitting a booking *)

(** C7, as the code has it. A submission with no user, with no showtime
    loaded or with no seat selected returns at the guard: the store is not
    reached, the page is left as it was and nothing is shown. A submission
    that fails after the guard has failed in the store, and the store's
    error is shown in a "Booking failed" toast with a text that is not
    empty, the [booking] flag being lowered again. *)
Theorem handleBooking_guard_and_failures (p : Props) (st : State)
    (db : Store) :
  (user p = None ∨ showtime st = None ∨ selectedSeats st = [] →
   handleBooking p st db = (db, st, Returned)) ∧
  (∀ db' st' e, handleBooking p st db = (db', st', Failed e) →
     toasts st' = toasts st ++ [booking_failed e] ∧
     title (booking_failed e) = "Booking failed" ∧
     description (booking_failed e) = message e ∧
     message e ≠ "" ∧
     booking st' = false).
Proof.
  split.
  - intros Hguard. unfold handleBooking.
    by rewrite PageFacts.handleBooking_begin_guard.
  - intros db' st' e. unfold handleBooking, handleBooking_begin.
    assert (Hdesc : description (booking_failed e) = message e).
    { unfold booking_failed. simpl.
      by rewrite bool_decide_eq_false_2 by apply PageFacts.message_nonempty. }
    destruct (user p), (showtime st); try done.
    case_bool_decide; [done|].
    destruct (insert_booking _ _ _ _ _) as [db1 [e1|b]].
    + intros [= <- <- <-].
      split_and!; auto using PageFacts.message_nonempty.
    + unfold handleBooking_finish.
      destruct (insert_booked_seats _ _) as [db2 [e2|]]; [|done].
      intros [= <- <- <-].
      split_and!; auto using PageFacts.message_nonempty.
Qed.

(** An anonymous visitor with A1 selected is sent back at the guard; Bob's
    submission of the taken A1 fails with the store's message on screen. *)
Lemma handleBooking_guard_and_failures_witness :
  let st := Scenario.picked Scenario.anonymous Scenario.db0 ["A1"] in
  let st_bob := Scenario.picked Scenario.bob Scenario.db0 ["A1"] in
  handleBooking Scenario.anonymous st Scenario.db0 =
    (Scenario.db0, st, Returned) ∧
  ∃ db' st' e,
    handleBooking Scenario.bob st_bob Scenario.db1 = (db', st', Failed e) ∧
    toasts st' = toasts st_bob ++ [booking_failed e].
Proof.
  intros st st_bob. split.
  - apply (handleBooking_guard_and_failures Scenario.anonymous st
             Scenario.db0). left. reflexivity.
  - destruct (handleBooking Scenario.bob st_bob Scenario.db1)
      as [[db' st'] o] eqn:Hh.
    exists db', st', Db.unique_error.
    assert (Ho : o = Failed Db.unique_error).
    { pose proof (f_equal snd Hh) as Ho. cbn [snd] in Ho.
      rewrite <-Ho. vm_compute. reflexivity. }
    subst o. split; [reflexivity|].
    apply (proj2 (handleBooking_guard_and_failures Scenario.bob st_bob
                    Scenario.db1) db' st' Db.unique_error Hh).
Defined.

(** C7 as stated fails: with nobody signed in and A1 selected, and with
    Alice signed in and nothing selected, the handler ends without a
    failure and without a toast. *)
Lemma handleBooking_returns_silently :
  let st := Scenario.picked Scenario.anonymous Scenario.db0 ["A1"] in
  let st_empty := Scenario.loaded Scenario.alice Scenario.db0 in
  selectedSeats st = ["A1"] ∧ selectedSeats st_empty = [] ∧
  handleBooking Scenario.anonymous st Scenario.db0 =
    (Scenario.db0, st, Returned) ∧
  handleBooking Scenario.alice st_empty Scenario.db0 =
    (Scenario.db0, st_empty, Returned) ∧
  toasts st = [] ∧ toasts st_empty = [].
Proof. vm_compute. split_and!; reflexivity. Qed.

(** C9. After a submission that fails the selection is what it was before:
    the page stays on the tree where it was, with its seats and showtime,
    and shows the "Booking failed" toast. After a submission that succeeds
    the page shows the "Booking confirmed!" toast and navigates to
    /bookings; the handler does not write the selection, but the seat page
    leaves the tree with this navigation and its cells go with it, so that
    no selection is left: nothing is rendered, nothing reaches the page any
    more, and the selection a seat page starts from is the empty one. The
    same holds whenever the seats are inserted, whatever has happened on
    the page since the booking row went in. *)
Theorem handleBooking_keeps_selection (p : Props) (st : State) (db : Store)
    (db' : Store) (st' : State) (o : Outcome) :
  handleBooking p st db = (db', st', o) →
  (∀ e, o = Failed e →
     selectedSeats st' = selectedSeats st ∧
     seats st' = seats st ∧
     showtime st' = showtime st ∧
     mounted st' = mounted st ∧
     navigated st' = navigated st ∧
     toasts st' = toasts st ++ [booking_failed e] ∧
     title (booking_failed e) = "Booking failed") ∧
  (o = Confirmed →
     selectedSeats st' = [] ∧
     mounted st' = false ∧
     Render.render st' = View.NotMounted ∧
     (∀ ev, Trace.react p st' ev = st') ∧
     navigated st' = navigated st ++ ["/bookings"] ∧
     toasts st' = toasts st ++ [booking_confirmed (selectedSeats st)] ∧
     title (booking_confirmed (selectedSeats st)) = "Booking confirmed!") ∧
  (∀ pend st0 db0 db1 st1 o1,
     handleBooking_finish p pend st0 db0 = (db1, st1, o1) →
     (o1 ≠ Confirmed →
      selectedSeats st1 = selectedSeats st0 ∧ mounted st1 = mounted st0) ∧
     (o1 = Confirmed → selectedSeats st1 = [] ∧ mounted st1 = false)).
Proof.
  intros Hh. split_and!.
  - intros e ->. revert Hh. unfold handleBooking, handleBooking_begin.
    destruct (user p), (showtime st) eqn:Hsh; try done.
    case_bool_decide; [done|].
    destruct (insert_booking _ _ _ _ _) as [db1 [e1|b]].
    + intros [= <- <- <-]. by rewrite <-Hsh.
    + intros [(e2 & [= <-] & ->)|[? _]]%PageFacts.handleBooking_finish_state;
        [|done].
      by rewrite <-Hsh.
  - intros ->.
    rewrite (PageFacts.handleBooking_confirmed_state _ _ _ _ _ Hh).
    done.
  - intros pend st0 db0 db1 st1 o1
      [(e & -> & ->)|[-> ->]]%PageFacts.handleBooking_finish_state; done.
Qed.

(** Bob's submission of the taken A1 fails and leaves A1 selected; Alice's
    submission of A1 and B2 is confirmed and leaves no selection. *)
Lemma handleBooking_keeps_selection_witness :
  let st_bob := Scenario.picked Scenario.bob Scenario.db0 ["A1"] in
  let st_alice := Scenario.picked Scenario.alice Scenario.db0 ["A1"; "B2"] in
  (∃ db' st' e,
     handleBooking Scenario.bob st_bob Scenario.db1 = (db', st', Failed e) ∧
     selectedSeats st' = ["A1"] ∧ mounted st' = true) ∧
  (∃ db' st',
     handleBooking Scenario.alice st_alice Scenario.db0 =
       (db', st', Confirmed) ∧
     selectedSeats st' = [] ∧ mounted st' = false ∧
     navigated st' = ["/bookings"]).
Proof.
  intros st_bob st_alice. split.
  - destruct (handleBooking Scenario.bob st_bob Scenario.db1)
      as [[db' st'] o] eqn:Hh.
    assert (Ho : o = Failed Db.unique_error).
    { pose proof (f_equal snd Hh) as Ho. cbn [snd] in Ho.
      rewrite <-Ho. vm_compute. reflexivity. }
    exists db', st', Db.unique_error. split; [by rewrite Ho|].
    destruct (handleBooking_keeps_selection Scenario.bob st_bob Scenario.db1
                db' st' o Hh) as (Hfail & _).
    destruct (Hfail _ Ho) as (Hsel & _ & _ & Hmounted & _).
    split; [rewrite Hsel|rewrite Hmounted]; vm_compute; reflexivity.
  - destruct (handleBooking Scenario.alice st_alice Scenario.db0)
      as [[db' st'] o] eqn:Hh.
    assert (Ho : o = Confirmed).
    { pose proof (f_equal snd Hh) as Ho. cbn [snd] in Ho.
      rewrite <-Ho. vm_compute. reflexivity. }
    exists db', st'. split; [by rewrite Ho|].
    destruct (handleBooking_keeps_selection Scenario.alice st_alice
                Scenario.db0 db' st' o Hh) as (_ & Hok & _).
    destruct (Hok Ho) as (Hsel & Hmounted & _ & _ & Hnav & _).
    split_and!; [exact Hsel|exact Hmounted|].
    rewrite Hnav. vm_compute. reflexivity.
Defined.

(** ** Fetching again *)

Lemma reserved_booked_labels (db : Store) (sid seatLabel : string) :
  reserved db sid seatLabel ↔ seatLabel ∈ booked_labels db sid.
Proof.
  unfold reserved, booked_labels. rewrite !list_elem_of_fmap. split.
  - intros (r & [= -> ->] & Hr). exists r. split; [done|].
    by apply list_elem_of_filter.
  - intros (r & -> & [<- Hr]%list_elem_of_filter). by exists r.
Qed.

(** C10, as the code has it. A fetch, the one a change notification starts
    included, writes [seats] and [showtime], lowers [loading], and shows a
    toast when the showtime cannot be read; it leaves the selection, the
    [booking] flag and the location alone. So a selected seat that is
    reserved by the time of the fetch stays selected, is marked booked in
    [seats], and is part of the next submission: of the selection it hands
    over, of the booking row and of the reservations it asks for. *)
Theorem refetch_keeps_selection (p : Props) (db1 db2 : Store) (st : State) :
  let st' := on_booked_seats_change p db1 db2 st in
  selectedSeats st' = selectedSeats st ∧
  booking st' = booking st ∧
  navigated st' = navigated st ∧
  loading st' = false ∧
  (toasts st' = toasts st ∨ toasts st' = toasts st ++ [error_loading_seats]) ∧
  ∀ seatLabel,
    seatLabel ∈ selectedSeats st → reserved db2 (showtimeId p) seatLabel →
    seatLabel ∈ selectedSeats st' ∧
    (∀ sh seat, select_showtime db1 (showtimeId p) = inr sh →
       seat ∈ seats st' → label seat = seatLabel → isBooked seat = true) ∧
    (∀ db db' st'' pend,
       handleBooking_begin p st' db = (db', st'', inr pend) →
       seatLabel ∈ submitted pend ∧
       seatLabel ∈ Booking.seats (bookingData pend) ∧
       seatLabel ∈ BookedSeat.seat_label <$> seatReservations p pend).
Proof.
  intros st'. subst st'. unfold on_booked_seats_change.
  split_and!.
  - apply PageFacts.selectedSeats_fetch.
  - unfold fetchShowtimeAndSeats. by destruct (select_showtime db1 _).
  - unfold fetchShowtimeAndSeats. by destruct (select_showtime db1 _).
  - done.
  - unfold fetchShowtimeAndSeats.
    destruct (select_showtime db1 _); [by right|by left].
  - intros seatLabel Hin Hres. rewrite PageFacts.selectedSeats_fetch.
    split_and!; [done| |].
    + intros sh seat Hsel Hseat Hlabel.
      rewrite (PageFacts.fetchShowtimeAndSeats_read _ _ _ _ _ Hsel)
        in Hseat. simpl in Hseat.
      apply LayoutFacts.elem_of_generateSeats
        in Hseat as (rowData & c & _ & _ & ->).
      simpl in *. apply bool_decide_eq_true_2. rewrite Hlabel.
      apply elem_of_list_to_set. by apply reserved_booked_labels.
    + intros db db' st'' pend.
      set (st1 := fetchShowtimeAndSeats p db1 db2 st).
      assert (Hsel : selectedSeats st1 = selectedSeats st)
        by apply PageFacts.selectedSeats_fetch.
      clearbody st1. unfold handleBooking_begin.
      destruct (user p), (showtime st1); try done.
      case_bool_decide; [done|].
      destruct (insert_booking _ _ _ _ _) as [db3 [e|b]] eqn:Hins; [done|].
      apply DbFacts.insert_booking_inr in Hins as (_ & -> & _).
      intros [= <- <- <-]. unfold seatReservations. simpl.
      rewrite Hsel, <-list_fmap_compose. simpl.
      split_and!; [done..|]. by rewrite list_fmap_id.
Qed.

(** Bob has A1 selected when Alice books it: after the notification his
    page shows A1 as booked, keeps it selected and submits it. *)
Lemma refetch_keeps_selection_witness :
  let st := Scenario.picked Scenario.bob Scenario.db0 ["A1"] in
  let st' :=
    on_booked_seats_change Scenario.bob Scenario.db1 Scenario.db1 st in
  selectedSeats st' = ["A1"] ∧
  (∀ seat, seat ∈ seats st' → label seat = "A1" → isBooked seat = true) ∧
  ∃ db' st'' pend,
    handleBooking_begin Scenario.bob st' Scenario.db1 = (db', st'', inr pend) ∧
    "A1" ∈ Booking.seats (bookingData pend).
Proof.
  intros st st'.
  pose proof (refetch_keeps_selection Scenario.bob Scenario.db1 Scenario.db1
                st) as (Hsel & _ & _ & _ & _ & Hseat).
  destruct (Hseat "A1") as (_ & Hbooked & Hsubmit).
  { apply (bool_decide_unpack _). vm_compute. exact I. }
  { apply (bool_decide_unpack _). vm_compute. exact I. }
  split_and!.
  - exact Hsel.
  - intros seat. apply (Hbooked Scenario.s1). reflexivity.
  - destruct (handleBooking_begin Scenario.bob st' Scenario.db1)
      as [[db' st''] [o|pend]] eqn:Hbegin.
    + exfalso. pose proof (f_equal snd Hbegin) as Ho. cbn [snd] in Ho.
      revert Ho. vm_compute. discriminate.
    + exists db', st'', pend. split; [reflexivity|].
      apply (Hsubmit Scenario.db1 db' st'' pend Hbegin).
Defined.

(** C10 as stated fails: the fetch writes [loading] as well. A notification
    that reaches a page whose first fetch has not come back finds
    [loading] raised and lowers it. *)
Lemma refetch_writes_loading :
  loading initial = true ∧
  loading
    (on_booked_seats_change Scenario.alice Scenario.db0 Scenario.db0 initial)
    = false.
Proof. vm_compute. split; reflexivity. Qed.

(** ** The Availability Projector *)

Lemma seat_states_cases (selectedSeats : list string) (seat : Seat) :
  seat_states selectedSeats seat =
    match isBooked seat, bool_decide (label seat ∈ selectedSeats) with
    | true, true => [booked; selected]
    | true, false => [booked]
    | false, true => [selected]
    | false, false => [available]
    end.
Proof.
  unfold seat_states.
  by destruct (isBooked seat), (bool_decide (label seat ∈ selectedSeats)).
Qed.

(** C3 at its failing input. Bob selects A1, Alice books A1 and B2, and the
    notification makes Bob's page fetch again: A1 is in the reserved set
    and in Bob's selection, and the page gives it two states, booked and
    selected, the class of the selected state coming last. The other seats
    have one state each. *)
Theorem reserved_selected_seat_has_two_states :
  let st := Scenario.picked Scenario.bob Scenario.db0 ["A1"] in
  let st' :=
    on_booked_seats_change Scenario.bob Scenario.db1 Scenario.db1 st in
  reserved Scenario.db1 "s1" "A1" ∧
  selectedSeats st' = ["A1"] ∧
  projection st' =
    [ ("A1", [booked; selected]); ("A2", [available]);
      ("B1", [available]); ("B2", [booked]) ].
Proof.
  split_and!.
  - apply (bool_decide_unpack _). vm_compute. exact I.
  - vm_compute. reflexivity.
  - vm_compute. reflexivity.
Qed.

(** ** The Reservation Transaction *)

(** C1, as the code has it. A submission past the guard with a seat that is
    reserved when the seats are inserted fails, and the failure is shown;
    no reservation is created: [booked_seats] is what it was. The store is
    not what it was, though, whenever it takes the booking row, that is
    when the total is in the range of its column, the user has a profile
    and the showtime exists: the row, inserted before the seats, stays in
    [bookings], and the failure is the one of the uniqueness constraint.
    When the store refuses the booking row, nothing is written and the
    failure is the store's reason for refusing. The same holds whenever the
    seats are inserted, however the store has moved on since the booking
    row went in: the insert fails and leaves that store untouched. *)
Theorem conflict_creates_no_reservation (p : Props) (st : State)
    (db : Store) (u : User.t) (sh : Showtime.t) (seatLabel : string) :
  user p = Some u → showtime st = Some sh →
  seatLabel ∈ selectedSeats st →
  reserved db (showtimeId p) seatLabel →
  let totalPrice :=
    Showtime.ticket_price sh * Z.of_nat (length (selectedSeats st)) in
  ∃ db' st' e,
    handleBooking p st db = (db', st', Failed e) ∧
    booked_seats db' = booked_seats db ∧
    showtimes db' = showtimes db ∧
    profiles db' = profiles db ∧
    toasts st' = toasts st ++ [booking_failed e] ∧
    (Z.abs totalPrice < 10 ^ 10 → User.id u ∈ profiles db →
     showtime_exists db (showtimeId p) = true →
     e = Db.unique_error ∧
     bookings db' =
       bookings db ++
       [ {| Booking.id := next_uuid db;
            Booking.user_id := User.id u;
            Booking.showtime_id := showtimeId p;
            Booking.seats := selectedSeats st;
            Booking.total_price := totalPrice;
            Booking.booking_status := "confirmed" |} ]) ∧
    (10 ^ 10 ≤ Z.abs totalPrice ∨ User.id u ∉ profiles db ∨
     showtime_exists db (showtimeId p) = false →
     db' = db ∧
     Db.check_booking db (User.id u) (showtimeId p) totalPrice = Some e) ∧
    ∀ pend st2 db2,
      seatLabel ∈ submitted pend → reserved db2 (showtimeId p) seatLabel →
      ∃ e2, handleBooking_finish p pend st2 db2 =
              (db2, setBooking false (toast (booking_failed e2) st2),
               Failed e2).
Proof.
  intros Hu Hsh Hin Hres totalPrice.
  assert (Hne : selectedSeats st ≠ []) by (by intros Heq; rewrite Heq in Hin;
    apply elem_of_nil in Hin).
  unfold handleBooking.
  rewrite (PageFacts.handleBooking_begin_past_guard p st db u sh) by done.
  fold totalPrice.
  destruct (check_booking db (User.id u) (showtimeId p) totalPrice)
    as [e0|] eqn:Hcheck.
  - unfold insert_booking. rewrite Hcheck.
    eexists db, _, e0. split_and!; try done.
    + intros H1 H2 H3.
      assert (Hnone : check_booking db (User.id u) (showtimeId p) totalPrice
                      = None) by (by apply DbFacts.check_booking_None).
      congruence.
    + intros pend2 st2 db2. apply PageFacts.handleBooking_finish_conflict.
  - rewrite (DbFacts.insert_booking_ok _ _ _ _ _ Hcheck). cbv zeta.
    apply DbFacts.check_booking_None in Hcheck as (Hrange & Hprofile & Hex).
    set (b := Booking.mk _ _ _ _ _ _).
    set (db1 := mkStore _ _ _ _ _).
    set (pend := mkPending _ _).
    destruct (PageFacts.handleBooking_finish_conflict p pend
                (setBooking true st) db1 seatLabel) as [e He]; [done..|].
    rewrite He. eexists db1, _, e.
    split_and!; try done.
    + intros _ _ _. split; [|done].
      eapply (PageFacts.handleBooking_finish_failed p pend); [| |exact He].
      * done.
      * unfold booking_exists. apply bool_decide_eq_true_2. subst db1. simpl.
        rewrite fmap_app. apply elem_of_app. right. by left.
    + intros [Hover|[Hno|Hgone]]; [lia|done|congruence].
    + intros pend2 st2 db2. apply PageFacts.handleBooking_finish_conflict.
Qed.

(** Bob submits A1 after Alice has booked it: the booking row goes in and
    the seats fail. Alice submits A1 and B2 at 99999999.99 a seat after Bob
    has booked A1: the store refuses the booking row, the total being more
    than its column holds, and nothing is written. *)
Lemma conflict_creates_no_reservation_witness :
  let st := Scenario.picked Scenario.bob Scenario.db0 ["A1"] in
  let st_dear :=
    Scenario.picked Scenario.alice Scenario.db_dear ["A1"; "B2"] in
  (∃ db' st' e,
     handleBooking Scenario.bob st Scenario.db1 = (db', st', Failed e) ∧
     booked_seats db' = booked_seats Scenario.db1 ∧
     e = Db.unique_error) ∧
  (∃ st' e,
     handleBooking Scenario.alice st_dear Scenario.db_dear_taken =
       (Scenario.db_dear_taken, st', Failed e) ∧
     e = NumericOverflow).
Proof.
  intros st st_dear. split.
  - destruct (conflict_creates_no_reservation Scenario.bob st Scenario.db1
                (User.mk "bob") Scenario.s1 "A1")
      as (db' & st' & e & Hh & Hseats & _ & _ & _ & Hrow & _).
    + reflexivity.
    + reflexivity.
    + apply (bool_decide_unpack _). vm_compute. exact I.
    + apply (bool_decide_unpack _). vm_compute. exact I.
    + exists db', st', e. split_and!; [exact Hh|exact Hseats|].
      apply Hrow.
      * vm_compute. reflexivity.
      * apply (bool_decide_unpack _). vm_compute. exact I.
      * reflexivity.
  - destruct (conflict_creates_no_reservation Scenario.alice st_dear
                Scenario.db_dear_taken (User.mk "alice") Scenario.s1_dear "A1")
      as (db' & st' & e & Hh & _ & _ & _ & _ & _ & Hrefused & _).
    + reflexivity.
    + reflexivity.
    + apply (bool_decide_unpack _). vm_compute. exact I.
    + apply (bool_decide_unpack _). vm_compute. exact I.
    + destruct Hrefused as [Hdb Hcheck].
      { left. vm_compute. discriminate. }
      exists st', e. split; [rewrite Hh; by rewrite Hdb|].
      revert Hcheck. vm_compute. by intros [= <-].
Defined.

(** C1 as stated fails: Bob's submission of the taken A1 fails, no
    reservation is added, and the store has changed all the same: it holds
    a booking row for Bob, confirmed, with the seat A1. *)
Lemma conflict_leaves_booking_row :
  let st := Scenario.picked Scenario.bob Scenario.db0 ["A1"] in
  let r := handleBooking Scenario.bob st Scenario.db1 in
  reserved Scenario.db1 "s1" "A1" ∧
  r.2 = Failed Db.unique_error ∧
  booked_seats r.1.1 = booked_seats Scenario.db1 ∧
  bookings r.1.1 =
    bookings Scenario.db1 ++
    [ {| Booking.id := 1; Booking.user_id := "bob";
         Booking.showtime_id := "s1"; Booking.seats := ["A1"];
         Booking.total_price := 1000;
         Booking.booking_status := "confirmed" |} ] ∧
  r.1.1 ≠ Scenario.db1.
Proof.
  split_and!.
  - apply (bool_decide_unpack _). vm_compute. exact I.
  - vm_compute. reflexivity.
  - vm_compute. reflexivity.
  - vm_compute. reflexivity.
  - vm_compute. discriminate.
Qed.

(** C4, as the code has it. A confirmed submission on a well-formed store
    has added one booking row, for the showtime of the page, whose seats
    are the selection and whose status is confirmed; the reservations that
    refer to it are one per seat of the selection, in its order, all for
    that showtime, so the seats of the booking and the seats of its
    reservations are the same. Its price is the number of seats times the
    ticket price the page has loaded with the showtime, which is the
    ticket price of the showtime in the store exactly when the price there
    is still the one the page has loaded. *)
Theorem confirmed_booking_matches_reservations (p : Props) (st : State)
    (db db' : Store) (st' : State) :
  wf db →
  handleBooking p st db = (db', st', Confirmed) →
  ∃ sh b,
    showtime st = Some sh ∧
    bookings db' = bookings db ++ [b] ∧
    Booking.seats b = selectedSeats st ∧
    Booking.total_price b =
      Showtime.ticket_price sh * Z.of_nat (length (selectedSeats st)) ∧
    (∀ sh', select_showtime db (showtimeId p) = inr sh' →
       Booking.total_price b =
         Showtime.ticket_price sh' * Z.of_nat (length (Booking.seats b)) ↔
       Showtime.ticket_price sh' = Showtime.ticket_price sh) ∧
    Booking.showtime_id b = showtimeId p ∧
    Booking.booking_status b = "confirmed" ∧
    reservations_of db' (Booking.id b) =
      (λ seatLabel, BookedSeat.mk (showtimeId p) seatLabel (Booking.id b))
      <$> Booking.seats b ∧
    (∀ seatLabel,
       seatLabel ∈ Booking.seats b ↔
       ∃ r, r ∈ booked_seats db' ∧
            BookedSeat.booking_id r = Booking.id b ∧
            BookedSeat.seat_label r = seatLabel) ∧
    wf db'.
Proof.
  intros Hwf Hh.
  pose proof (PageFacts.wf_handleBooking _ _ _ _ _ _ Hwf Hh) as Hwf'.
  assert (Hne : selectedSeats st ≠ []).
  { intros Heq. unfold handleBooking in Hh.
    rewrite PageFacts.handleBooking_begin_guard in Hh by auto. done. }
  apply PageFacts.handleBooking_confirmed_inv in Hh
    as (u & sh & Hu & Hsh & ->).
  exists sh, (Page.new_booking p st db u sh).
  assert (Hres :
    filter (λ r, BookedSeat.booking_id r = next_uuid db)
      (booked_seats db ++
       ((λ seatLabel, BookedSeat.mk (showtimeId p) seatLabel (next_uuid db))
        <$> selectedSeats st)) =
    (λ seatLabel, BookedSeat.mk (showtimeId p) seatLabel (next_uuid db))
    <$> selectedSeats st).
  { apply DbFacts.filter_new_reservations; [done|].
    by intros r (l & -> & _)%list_elem_of_fmap. }
  split_and!; try done.
  - intros sh' _. cbn [Page.new_booking Booking.seats Booking.total_price].
    assert (0 < Z.of_nat (length (selectedSeats st))).
    { destruct (selectedSeats st); [done|]. simpl. lia. }
    split; [intros Heq; nia|by intros ->].
  - intros seatLabel. cbn [Page.new_booking Booking.seats Booking.id
                           booked_seats]. split.
    + intros Hl.
      exists (BookedSeat.mk (showtimeId p) seatLabel (next_uuid db)).
      split_and!; [|reflexivity..]. apply elem_of_app. right.
      by apply (list_elem_of_fmap_2 (λ l, BookedSeat.mk _ l _)).
    + intros (r & Hr & Hid & <-).
      assert (Hr' : r ∈ filter (λ r, BookedSeat.booking_id r = next_uuid db)
        (booked_seats db ++
         ((λ seatLabel,
             BookedSeat.mk (showtimeId p) seatLabel (next_uuid db))
          <$> selectedSeats st))) by (by apply list_elem_of_filter).
      rewrite Hres in Hr'.
      by apply list_elem_of_fmap in Hr' as (l & -> & ?).
Qed.

(** The booking of the scenario: A1 and B2 at 10.00 a seat come to 20.00,
    with two reservations. *)
Lemma confirmed_booking_matches_reservations_witness :
  let st := Scenario.picked Scenario.alice Scenario.db0 ["A1"; "B2"] in
  ∃ db' st' b,
    handleBooking Scenario.alice st Scenario.db0 = (db', st', Confirmed) ∧
    bookings db' = [b] ∧
    Booking.seats b = ["A1"; "B2"] ∧
    Booking.total_price b = 2000 ∧
    BookedSeat.seat_label <$> reservations_of db' (Booking.id b) =
      ["A1"; "B2"].
Proof.
  intros st.
  destruct (handleBooking Scenario.alice st Scenario.db0)
    as [[db' st'] o] eqn:Hh.
  assert (Ho : o = Confirmed).
  { pose proof (f_equal snd Hh) as Ho. cbn [snd] in Ho.
    rewrite <-Ho. vm_compute. reflexivity. }
  subst o.
  destruct (confirmed_booking_matches_reservations Scenario.alice st
              Scenario.db0 db' st')
    as (sh & b & Hsh & Hrows & Hseats & Hprice & _ & _ & _ & Hres & _).
  - apply (bool_decide_unpack _). vm_compute. exact I.
  - exact Hh.
  - exists db', st', b. split_and!.
    + reflexivity.
    + exact Hrows.
    + exact Hseats.
    + rewrite Hprice. injection Hsh as <-. vm_compute. reflexivity.
    + rewrite Hres, <-list_fmap_compose, Hseats. reflexivity.
Defined.

(** C4 as stated fails: Alice's page has loaded the showtime at 10.00 a
    seat and has A1 and B2 selected; meanwhile the price of the showtime
    has been put up to 25.00 in the store, which no notification tells the
    page. Her submission is confirmed with a total of 20.00, and two seats
    at the ticket price of the showtime are 50.00. *)
Lemma confirmed_total_is_of_loaded_price :
  let st := Scenario.picked Scenario.alice Scenario.db0 ["A1"; "B2"] in
  let r := handleBooking Scenario.alice st Scenario.db_repriced in
  r.2 = Confirmed ∧
  select_showtime Scenario.db_repriced "s1" = inr Scenario.s1_repriced ∧
  ∃ b, bookings r.1.1 = [b] ∧
       Booking.seats b = ["A1"; "B2"] ∧
       Booking.total_price b = 2000 ∧
       Showtime.ticket_price Scenario.s1_repriced *
         Z.of_nat (length (Booking.seats b)) = 5000 ∧
       Booking.total_price b ≠
         Showtime.ticket_price Scenario.s1_repriced *
         Z.of_nat (length (Booking.seats b)).
Proof.
  split_and!; [vm_compute; reflexivity..|].
  eexists. split_and!; [vm_compute; reflexivity..|].
  vm_compute. discriminate.
Qed.

(** ** Submissions that race *)

Module RaceFacts.
Import Race.

Lemma lookup_insert_cases (l : list Client) i j c' c2 :
  <[i:=c']> l !! j = Some c2 →
  (j = i ∧ c2 = c') ∨ (j ≠ i ∧ l !! j = Some c2).
Proof.
  intros Hl. destruct (decide (j = i)) as [->|Hne].
  - left. split; [done|].
    destruct (decide (i < length l)%nat) as [Hlt|Hge].
    + rewrite list_lookup_insert_eq in Hl by done. by simplify_eq.
    + rewrite list_insert_ge in Hl by lia.
      apply lookup_lt_Some in Hl. lia.
  - right. split; [done|]. by rewrite list_lookup_insert_ne in Hl.
Qed.

Lemma Inv_start db pages : wf db → Inv (start db pages).
Proof.
  intros Hwf.
  assert (Hready : ∀ i c, clients (start db pages) !! i = Some c →
            phase c = Ready).
  { intros i c. unfold start. simpl. rewrite list_lookup_fmap.
    destruct (pages !! i); [|done]. by intros [= <-]. }
  split; try done.
  - intros i c pend Hc. by rewrite (Hready i c Hc).
  - intros i j ci cj pi pj _ Hci. by rewrite (Hready i ci Hci).
  - intros i c pend Hc. rewrite (Hready i c Hc). by intros [?|[? ?]].
  - intros i c o pend Hc. by rewrite (Hready i c Hc).
  - intros i c pend Hc. by rewrite (Hready i c Hc).
Qed.

(** A client leaves without a booking row: the store stays. *)
Lemma Inv_leave cfg i c st' o :
  Inv cfg → clients cfg !! i = Some c → phase c = Ready →
  Inv {| store := store cfg;
         clients :=
           <[i := mkClient (props c) st' (Finished o None)]> (clients cfg) |}.
Proof.
  intros [Hwf Hpend Hdist Hnone Hout Hconf] Hc Hph. split; simpl.
  - done.
  - intros j c2 pend [[-> ->]|[Hne Hj]]%lookup_insert_cases; [done|].
    by eapply Hpend.
  - intros j k cj ck pj pk Hjk [[-> ->]|[Hnej Hj]]%lookup_insert_cases
      [[-> ->]|[Hnek Hk]]%lookup_insert_cases Hpj Hpk; try done.
    by eapply (Hdist j k).
  - intros j c2 pend [[-> ->]|[Hne Hj]]%lookup_insert_cases.
    + by intros [?|[? ?]].
    + by eapply Hnone.
  - intros j c2 o2 pend [[-> ->]|[Hne Hj]]%lookup_insert_cases; [done|].
    by eapply Hout.
  - intros j c2 pend [[-> ->]|[Hne Hj]]%lookup_insert_cases; [done|].
    by eapply Hconf.
Qed.

(** A client gets its booking row. *)
Lemma Inv_await cfg i c st' u seats price db' b :
  Inv cfg → clients cfg !! i = Some c → phase c = Ready →
  insert_booking (store cfg) u (showtimeId (props c)) seats price =
    (db', inr b) →
  Inv {| store := db';
         clients :=
           <[i := mkClient (props c) st'
                    (Awaiting {| submitted := seats; bookingData := b |})]>
             (clients cfg) |}.
Proof.
  intros [Hwf Hpend Hdist Hnone Hout Hconf] Hc Hph Hins.
  pose proof (DbFacts.insert_booking_wf _ _ _ _ _ _ _ Hwf Hins) as Hwf'.
  apply DbFacts.insert_booking_inr in Hins as (Hex & Hb & ->).
  assert (Hid : Booking.id b = next_uuid (store cfg)) by (by subst b).
  assert (Hold : ∀ j cj pj, clients cfg !! j = Some cj →
            pend_of (phase cj) = Some pj →
            Booking.id (bookingData pj) ≠ Booking.id b).
  { intros j cj pj Hj Hpj. destruct (Hpend j cj pj Hj Hpj) as [_ Hin].
    apply DbFacts.wf_alt in Hwf as (_ & _ & Hfresh).
    apply Hfresh in Hin. lia. }
  clear Hb. split; simpl.
  - done.
  - intros j c2 pend [[-> ->]|[Hne Hj]]%lookup_insert_cases; simpl.
    + intros [= <-]. simpl. split; [done|].
      apply elem_of_app. right. by left.
    + intros Hp. destruct (Hpend j c2 pend Hj Hp) as [? ?].
      split; [done|]. apply elem_of_app. by left.
  - intros j k cj ck pj pk Hjk [[-> ->]|[Hnej Hj]]%lookup_insert_cases
      [[-> ->]|[Hnek Hk]]%lookup_insert_cases Hpj Hpk; simpl in *.
    + done.
    + simplify_eq. simpl. intros Heq. by eapply (Hold k ck pk).
    + simplify_eq. simpl. by eapply (Hold j cj pj).
    + by eapply (Hdist j k).
  - intros j c2 pend [[-> ->]|[Hne Hj]]%lookup_insert_cases; simpl.
    + intros [[= <-]|[e [=]]]. simpl. rewrite Hid.
      by apply (DbFacts.reservations_of_next (store cfg)).
    + intros Hp. by apply (Hnone j c2 pend Hj Hp).
  - intros j c2 o2 pend [[-> ->]|[Hne Hj]]%lookup_insert_cases; [done|].
    by apply (Hout j c2 o2 _ Hj).
  - intros j c2 pend [[-> ->]|[Hne Hj]]%lookup_insert_cases; [done|].
    intros Hp. by apply (Hconf j c2 pend Hj Hp).
Qed.

(** A client's seats are refused: the store stays. *)
Lemma Inv_fail cfg i c st' pend :
  Inv cfg → clients cfg !! i = Some c → phase c = Awaiting pend →
  Inv {| store := store cfg;
         clients :=
           <[i := mkClient (props c) st'
                    (Finished (Failed Db.unique_error) (Some pend))]>
             (clients cfg) |}.
Proof.
  intros [Hwf Hpend Hdist Hnone Hout Hconf] Hc Hph.
  assert (Hp : pend_of (phase c) = Some pend) by (by rewrite Hph).
  split; simpl.
  - done.
  - intros j c2 pend2 [[-> ->]|[Hne Hj]]%lookup_insert_cases; simpl.
    + intros [= <-]. by apply (Hpend i c pend).
    + by apply (Hpend j c2 pend2 Hj).
  - intros j k cj ck pj pk Hjk [[-> ->]|[Hnej Hj]]%lookup_insert_cases
      [[-> ->]|[Hnek Hk]]%lookup_insert_cases Hpj Hpk; simpl in *.
    + done.
    + simplify_eq. by eapply (Hdist i k).
    + simplify_eq. by eapply (Hdist j i).
    + by eapply (Hdist j k).
  - intros j c2 pend2 [[-> ->]|[Hne Hj]]%lookup_insert_cases; simpl.
    + intros [[=]|[e [= _ <-]]]. apply (Hnone i c pend Hc). by left.
    + by apply (Hnone j c2 pend2 Hj).
  - intros j c2 o2 pend2 [[-> ->]|[Hne Hj]]%lookup_insert_cases; simpl.
    + intros [= <- _]. by right.
    + by apply (Hout j c2 o2 _ Hj).
  - intros j c2 pend2 [[-> ->]|[Hne Hj]]%lookup_insert_cases; [done|].
    by apply (Hconf j c2 pend2 Hj).
Qed.

Lemma insert_booked_seats_None db rows db' :
  insert_booked_seats db rows = (db', None) →
  db' = {| profiles := profiles db; showtimes := showtimes db;
           bookings := bookings db;
           booked_seats := booked_seats db ++ rows;
           next_uuid := next_uuid db |}.
Proof.
  unfold insert_booked_seats.
  destruct (insert_rows db (booked_seats db) rows) as [e|table] eqn:Hins;
    [done|].
  intros [= <-]. by apply DbFacts.insert_rows_inr in Hins as ->.
Qed.

Lemma insert_booked_seats_Some db rows db' e :
  insert_booked_seats db rows = (db', Some e) → db' = db.
Proof.
  unfold insert_booked_seats.
  destruct (insert_rows db (booked_seats db) rows); by intros [= <-].
Qed.

(** A client's seats are reserved. *)
Lemma Inv_confirm cfg i c st' pend db' :
  Inv cfg → clients cfg !! i = Some c → phase c = Awaiting pend →
  insert_booked_seats (store cfg) (seatReservations (props c) pend) =
    (db', None) →
  Inv {| store := db';
         clients :=
           <[i := mkClient (props c) st'
                    (Finished Confirmed (Some pend))]>
             (clients cfg) |}.
Proof.
  intros [Hwf Hpend Hdist Hnone Hout Hconf] Hc Hph Hins.
  pose proof (DbFacts.insert_booked_seats_wf _ _ _ _ Hwf Hins) as Hwf'.
  apply insert_booked_seats_None in Hins as ->.
  assert (Hp : pend_of (phase c) = Some pend) by (by rewrite Hph).
  assert (Hother : ∀ j cj pj, j ≠ i → clients cfg !! j = Some cj →
            pend_of (phase cj) = Some pj →
            reservations_of
              {| profiles := profiles (store cfg);
                 showtimes := showtimes (store cfg);
                 bookings := bookings (store cfg);
                 booked_seats :=
                   booked_seats (store cfg) ++
                   seatReservations (props c) pend;
                 next_uuid := next_uuid (store cfg) |}
              (Booking.id (bookingData pj)) =
            reservations_of (store cfg) (Booking.id (bookingData pj))).
  { intros j cj pj Hne Hj Hpj. unfold reservations_of. simpl.
    rewrite filter_app.
    rewrite (DbFacts.filter_none _ (seatReservations (props c) pend));
      [by rewrite app_nil_r|].
    intros r (l & -> & _)%list_elem_of_fmap. simpl.
    by apply (Hdist i j c cj pend pj). }
  split; simpl.
  - done.
  - intros j c2 pend2 [[-> ->]|[Hne Hj]]%lookup_insert_cases; simpl.
    + intros [= <-]. by apply (Hpend i c pend).
    + by apply (Hpend j c2 pend2 Hj).
  - intros j k cj ck pj pk Hjk [[-> ->]|[Hnej Hj]]%lookup_insert_cases
      [[-> ->]|[Hnek Hk]]%lookup_insert_cases Hpj Hpk; simpl in *.
    + done.
    + simplify_eq. by eapply (Hdist i k).
    + simplify_eq. by eapply (Hdist j i).
    + by eapply (Hdist j k).
  - intros j c2 pend2 [[-> ->]|[Hne Hj]]%lookup_insert_cases; simpl.
    + by intros [[=]|[e [=]]].
    + intros Hp2. rewrite (Hother j c2 pend2); [by apply (Hnone j c2)|done..|].
      by destruct Hp2 as [->|[e ->]].
  - intros j c2 o2 pend2 [[-> ->]|[Hne Hj]]%lookup_insert_cases; simpl.
    + intros [= <- _]. by left.
    + by apply (Hout j c2 o2 _ Hj).
  - intros j c2 pend2 [[-> ->]|[Hne Hj]]%lookup_insert_cases; simpl.
    + intros [= <-]. unfold reservations_of. simpl. rewrite filter_app.
      change (filter _ (booked_seats (store cfg)))
        with (reservations_of (store cfg) (Booking.id (bookingData pend))).
      rewrite (Hnone i c pend Hc) by (by left). simpl.
      apply DbFacts.filter_all.
      by intros r (l & -> & _)%list_elem_of_fmap.
    + intros Hp2. rewrite (Hother j c2 pend2); [|done..|by rewrite Hp2].
      by apply (Hconf j c2 pend2 Hj).
Qed.

Lemma handleBooking_begin_inl p st db db' st' o :
  handleBooking_begin p st db = (db', st', inl o) → db' = db.
Proof.
  unfold handleBooking_begin.
  destruct (user p), (showtime st); try by intros [= <- _ _].
  case_bool_decide; [by intros [= <- _ _]|].
  destruct (insert_booking _ _ _ _ _) as [db1 [e|b]] eqn:Hb; [|done].
  intros [= <- _ _]. by apply DbFacts.insert_booking_inl in Hb as [-> _].
Qed.

Lemma handleBooking_begin_inr p st db db' st' pend :
  handleBooking_begin p st db = (db', st', inr pend) →
  ∃ u price,
    insert_booking db u (showtimeId p) (submitted pend) price =
      (db', inr (bookingData pend)) ∧
    submitted pend = selectedSeats st.
Proof.
  unfold handleBooking_begin.
  destruct (user p) as [u|], (showtime st) as [sh|]; try done.
  case_bool_decide; [done|].
  destruct (insert_booking _ _ _ _ _) as [db1 [e|b]] eqn:Hb; [done|].
  intros [= <- _ <-]. simpl. eauto.
Qed.

Lemma Inv_step cfg i : Inv cfg → Inv (step cfg i).
Proof.
  intros HI. unfold step.
  destruct (clients cfg !! i) as [c|] eqn:Hc; [|done].
  destruct (phase c) as [|pend|o op] eqn:Hph; [| |done].
  - destruct (mounted (state c)); [|done].
    destruct (handleBooking_begin (props c) (state c) (store cfg))
      as [[db' st'] [o|pend]] eqn:Hbegin.
    + apply handleBooking_begin_inl in Hbegin as ->. by apply Inv_leave.
    + apply handleBooking_begin_inr in Hbegin as (u & price & Hins & _).
      destruct pend as [seats b]. by eapply Inv_await.
  - unfold handleBooking_finish.
    destruct (insert_booked_seats (store cfg) _) as [db' [e|]] eqn:Hins.
    + pose proof (insert_booked_seats_Some _ _ _ _ Hins) as ->.
      assert (e = Db.unique_error) as ->.
      { destruct (inv_pend cfg HI i c pend Hc) as [Hsh Hbk];
          [by rewrite Hph|].
        revert Hins. unfold insert_booked_seats.
        destruct (insert_rows _ _ _) as [e'|table] eqn:Hrows; [|done].
        intros [= <-]. eapply DbFacts.insert_rows_inl; [|done].
        intros r (l & -> & _)%list_elem_of_fmap. simpl. split; [done|].
        unfold booking_exists. apply bool_decide_eq_true_2.
        by apply list_elem_of_fmap_2. }
      by apply Inv_fail.
    + by apply Inv_confirm.
Qed.

Lemma Inv_run cfg schedule : Inv cfg → Inv (run cfg schedule).
Proof.
  revert cfg. induction schedule as [|i schedule IH]; intros cfg HI; [done|].
  simpl. apply IH. by apply Inv_step.
Qed.

(** A key of [booked_seats] belongs to one row. *)
Lemma key_row (table : list BookedSeat.t) r1 r2 :
  NoDup (BookedSeat.key <$> table) → r1 ∈ table → r2 ∈ table →
  BookedSeat.key r1 = BookedSeat.key r2 → r1 = r2.
Proof.
  induction table as [|r table IH]; [by intros _ ?%elem_of_nil|].
  rewrite fmap_cons. intros [Hnot Hnd]%NoDup_cons.
  intros [->|H1]%elem_of_cons [->|H2]%elem_of_cons Hkey.
  - done.
  - destruct Hnot. rewrite Hkey. by apply list_elem_of_fmap_2.
  - destruct Hnot. rewrite <-Hkey. by apply list_elem_of_fmap_2.
  - by apply IH.
Qed.

End RaceFacts.

Import Race.

(** C2, as the code has it. Clients submit against one well-formed store,
    their requests interleaved in any order. Of two submissions for one
    showtime that share a seat at most one is confirmed: if one is, the
    other, once it has come back from the store, has failed on the
    uniqueness constraint of [booked_seats], and while it is still waiting
    to insert its seats that insert is bound to fail so and to leave the
    store as it is. A submission that fails at the
    seats has no reservation in the store, and its booking row is there; a
    confirmed one has the reservations it asked for and no other. *)
Theorem race_one_winner_per_seat (db : Store) (pages : list (Props * State))
    (schedule : list nat) :
  wf db →
  let cfg := run (start db pages) schedule in
  (∀ i j ci cj o pi pj seatLabel,
     i ≠ j → clients cfg !! i = Some ci → clients cfg !! j = Some cj →
     phase ci = Finished o (Some pi) →
     phase cj = Finished Confirmed (Some pj) →
     showtimeId (props ci) = showtimeId (props cj) →
     seatLabel ∈ submitted pi → seatLabel ∈ submitted pj →
     o = Failed Db.unique_error) ∧
  (∀ i j ci cj pi pj seatLabel,
     i ≠ j → clients cfg !! i = Some ci → clients cfg !! j = Some cj →
     phase ci = Awaiting pi →
     phase cj = Finished Confirmed (Some pj) →
     showtimeId (props ci) = showtimeId (props cj) →
     seatLabel ∈ submitted pi → seatLabel ∈ submitted pj →
     ∃ st', handleBooking_finish (props ci) pi (state ci) (store cfg) =
              (store cfg, st', Failed Db.unique_error)) ∧
  (∀ i c e pend,
     clients cfg !! i = Some c →
     phase c = Finished (Failed e) (Some pend) →
     e = Db.unique_error ∧
     reservations_of (store cfg) (Booking.id (bookingData pend)) = [] ∧
     bookingData pend ∈ bookings (store cfg)) ∧
  (∀ i c pend,
     clients cfg !! i = Some c →
     phase c = Finished Confirmed (Some pend) →
     reservations_of (store cfg) (Booking.id (bookingData pend)) =
       seatReservations (props c) pend).
Proof.
  intros Hwf cfg.
  assert (HI : Race.Inv cfg)
    by (apply RaceFacts.Inv_run; by apply RaceFacts.Inv_start).
  destruct HI as [Hwf' Hpend Hdist Hnone Hout Hconf]. split_and!.
  - intros i j ci cj o pi pj seatLabel Hij Hi Hj Hpi Hpj Hsid Hsi Hsj.
    destruct (Hout i ci o pi Hi Hpi) as [-> | ->]; [exfalso|done].
    pose proof (Hconf i ci pi Hi Hpi) as Hri.
    pose proof (Hconf j cj pj Hj Hpj) as Hrj.
    set (ri := BookedSeat.mk (showtimeId (props ci)) seatLabel
                 (Booking.id (bookingData pi))).
    set (rj := BookedSeat.mk (showtimeId (props cj)) seatLabel
                 (Booking.id (bookingData pj))).
    assert (Hini : ri ∈ booked_seats (store cfg)).
    { eapply (list_elem_of_filter _ _ ri). unfold reservations_of in Hri.
      rewrite Hri. by apply (list_elem_of_fmap_2 (λ l, BookedSeat.mk _ l _)). }
    assert (Hinj : rj ∈ booked_seats (store cfg)).
    { eapply (list_elem_of_filter _ _ rj). unfold reservations_of in Hrj.
      rewrite Hrj. by apply (list_elem_of_fmap_2 (λ l, BookedSeat.mk _ l _)). }
    assert (Heq : ri = rj).
    { apply (RaceFacts.key_row (booked_seats (store cfg))); [|done|done|].
      - by destruct Hwf' as [? _].
      - unfold BookedSeat.key. simpl. by rewrite Hsid. }
    apply (Hdist i j ci cj pi pj Hij Hi Hj); [by rewrite Hpi|by rewrite Hpj|].
    by injection Heq.
  - intros i j ci cj pi pj seatLabel Hij Hi Hj Hpi Hpj Hsid Hsi Hsj.
    pose proof (Hconf j cj pj Hj Hpj) as Hrj.
    assert (Hres : reserved (store cfg) (showtimeId (props ci)) seatLabel).
    { unfold reserved. rewrite Hsid.
      apply (list_elem_of_fmap_2' _ _
               (BookedSeat.mk (showtimeId (props cj)) seatLabel
                  (Booking.id (bookingData pj)))); [|done].
      eapply list_elem_of_filter. unfold reservations_of in Hrj.
      rewrite Hrj. by apply (list_elem_of_fmap_2 (λ l, BookedSeat.mk _ l _)). }
    destruct (PageFacts.handleBooking_finish_conflict (props ci) pi
                (state ci) (store cfg) seatLabel Hsi Hres) as [e He].
    destruct (Hpend i ci pi Hi) as [Hsh Hbk]; [by rewrite Hpi|].
    destruct (PageFacts.handleBooking_finish_failed _ _ _ _ _ _ _ Hsh
                (bool_decide_eq_true_2 _ (list_elem_of_fmap_2 _ _ _ Hbk)) He)
      as (-> & _ & _).
    eauto.
  - intros i c e pend Hi Hp.
    destruct (Hout i c _ pend Hi Hp) as [Ho|Ho]; [done|].
    injection Ho as ->.
    split_and!; [done| |].
    + apply (Hnone i c pend Hi). right. by exists Db.unique_error.
    + apply (Hpend i c pend Hi). by rewrite Hp.
  - done.
Qed.

(** Alice and Bob race for A1: Alice is confirmed, Bob fails on the
    uniqueness constraint and holds no reservation. *)
Lemma race_one_winner_per_seat_witness :
  phase <$> clients Scenario.race_final =
    [ Finished Confirmed
        (Some (mkPending ["A1"; "B2"] Scenario.alice_booking));
      Finished (Failed Db.unique_error)
        (Some (mkPending ["A1"] Scenario.bob_booking)) ] ∧
  reservations_of (store Scenario.race_final) 1 = [] ∧
  BookedSeat.seat_label <$> reservations_of (store Scenario.race_final) 0 =
    ["A1"; "B2"].
Proof.
  assert (Hwf : wf Scenario.db0)
    by (apply (bool_decide_unpack _); vm_compute; exact I).
  pose proof (race_one_winner_per_seat Scenario.db0 Scenario.race_pages
                Scenario.race_schedule Hwf)
    as (_ & _ & Hfailed & Hconfirmed).
  destruct (clients Scenario.race_final !! 0%nat) as [c0|] eqn:H0;
    [|by vm_compute in H0].
  destruct (clients Scenario.race_final !! 1%nat) as [c1|] eqn:H1;
    [|by vm_compute in H1].
  assert (Hp0 : phase c0 =
    Finished Confirmed (Some (mkPending ["A1"; "B2"] Scenario.alice_booking))).
  { revert H0. vm_compute. by intros [= <-]. }
  assert (Hp1 : phase c1 =
    Finished (Failed Db.unique_error)
      (Some (mkPending ["A1"] Scenario.bob_booking))).
  { revert H1. vm_compute. by intros [= <-]. }
  split_and!.
  - vm_compute. reflexivity.
  - apply (Hfailed 1%nat c1 _ _ H1 Hp1).
  - pose proof (Hconfirmed 0%nat c0 _ H0 Hp0) as Hr.
    change (reservations_of (store Scenario.race_final) 0 =
            seatReservations (props c0)
              (mkPending ["A1"; "B2"] Scenario.alice_booking)) in Hr.
    rewrite Hr.
    assert (Hprops : props c0 = Scenario.alice).
    { revert H0. vm_compute. by intros [= <-]. }
    rewrite Hprops. reflexivity.
Defined.

(** C2 as stated fails: after the race Bob's submission has failed and the
    store holds the booking row it created, confirmed, with the seat A1
    that is reserved for Alice's booking. *)
Lemma race_loser_leaves_booking_row :
  phase <$> clients Scenario.race_final !! 1%nat =
    Some (Finished (Failed Db.unique_error)
            (Some (mkPending ["A1"] Scenario.bob_booking))) ∧
  bookings (store Scenario.race_final) =
    [Scenario.alice_booking; Scenario.bob_booking] ∧
  booked_seats (store Scenario.race_final) =
    [ BookedSeat.mk "s1" "A1" 0; BookedSeat.mk "s1" "B2" 0 ].
Proof. vm_compute. split_and!; reflexivity. Qed.

(** * More of the code *)

(** ** Sets and groups *)

Module JsFacts.
Import Js.

Lemma fold_set_add {A} `{EqDecision A} (xs acc : list A) :
  NoDup acc →
  NoDup (fold_left set_add xs acc) ∧
  (∀ x, x ∈ fold_left set_add xs acc ↔ x ∈ acc ∨ x ∈ xs) ∧
  ∃ r, fold_left set_add xs acc = acc ++ r ∧ r `sublist_of` xs.
Proof.
  revert acc. induction xs as [|y xs IH]; intros acc Hacc; simpl.
  - split_and!; [done| |].
    + intros x. split; [by left|]. by intros [?|?%elem_of_nil].
    + exists []. by rewrite app_nil_r.
  - unfold set_add at 2 4 6. case_bool_decide as Hy.
    + destruct (IH acc Hacc) as (Hnd & Hin & r & Heq & Hsub).
      split_and!; [done| |].
      * intros x. rewrite Hin, elem_of_cons.
        split; [intros [?|?]; auto|intros [?|[->|?]]; auto].
      * exists r. split; [done|]. by apply sublist_cons.
    + assert (Hacc' : NoDup (acc ++ [y])).
      { apply NoDup_app. split_and!; [done| |apply NoDup_singleton].
        by intros x Hx ->%list_elem_of_singleton. }
      destruct (IH (acc ++ [y]) Hacc') as (Hnd & Hin & r & Heq & Hsub).
      split_and!; [done| |].
      * intros x. rewrite Hin, elem_of_app, list_elem_of_singleton.
        rewrite elem_of_cons.
        split; [intros [[?|?]|?]; auto|intros [?|[?|?]]; auto].
      * exists (y :: r). split; [by rewrite Heq, <-app_assoc|].
        by apply sublist_skip.
Qed.

Lemma NoDup_unique {A} `{EqDecision A} (xs : list A) : NoDup (unique xs).
Proof. apply fold_set_add. constructor. Qed.

Lemma elem_of_unique {A} `{EqDecision A} (xs : list A) x :
  x ∈ unique xs ↔ x ∈ xs.
Proof.
  unfold unique.
  destruct (fold_set_add xs [] (NoDup_nil_2 : NoDup [])) as (_ & Hin & _).
  rewrite Hin. split; [by intros [?%elem_of_nil|?]|by right].
Qed.

Lemma sublist_unique {A} `{EqDecision A} (xs : list A) :
  unique xs `sublist_of` xs.
Proof.
  unfold unique.
  destruct (fold_set_add xs [] (NoDup_nil_2 : NoDup []))
    as (_ & _ & r & -> & Hsub).
  done.
Qed.

Lemma unique_snoc {A} `{EqDecision A} (xs : list A) x :
  unique (xs ++ [x]) =
    if bool_decide (x ∈ xs) then unique xs else unique xs ++ [x].
Proof.
  unfold unique at 1. rewrite fold_left_app. simpl. fold (unique xs).
  unfold set_add. destruct (decide (x ∈ xs)) as [Hin|Hnot].
  - rewrite !bool_decide_eq_true_2; [done|done|by apply elem_of_unique].
  - rewrite !bool_decide_eq_false_2; [done|done|by rewrite elem_of_unique].
Qed.

(** The values stand in the order of their first occurrences: of two
    values of [unique xs] the earlier one occurs in [xs] at a place before
    which the later one does not occur. *)
Lemma unique_order {A} `{EqDecision A} (xs : list A) (i j : nat) a b :
  unique xs !! i = Some a → unique xs !! j = Some b → (i < j)%nat →
  ∃ n, xs !! n = Some a ∧ b ∉ take n xs.
Proof.
  revert i j a b. induction xs as [|x xs IH] using rev_ind;
    intros i j a b Hi Hj Hij; [done|].
  rewrite unique_snoc in Hi, Hj.
  assert (Hlift : ∀ n, xs !! n = Some a → b ∉ take n xs →
    ∃ n, (xs ++ [x]) !! n = Some a ∧ b ∉ take n (xs ++ [x])).
  { intros n Hn Hb. exists n. split; [by apply lookup_app_l_Some|].
    rewrite take_app_le; [done|]. apply lookup_lt_Some in Hn. lia. }
  case_bool_decide as Hx.
  - destruct (IH i j a b Hi Hj Hij) as (n & Hn & Hb). by apply (Hlift n).
  - destruct (decide (j < length (unique xs))%nat) as [Hlt|Hge].
    + rewrite lookup_app_l in Hi, Hj by lia.
      destruct (IH i j a b Hi Hj Hij) as (n & Hn & Hb). by apply (Hlift n).
    + pose proof (lookup_lt_Some _ _ _ Hj) as Hj'.
      rewrite length_app in Hj'. simpl in Hj'.
      rewrite lookup_app_l in Hi by lia.
      rewrite lookup_app_r in Hj by lia.
      replace (j - length (unique xs))%nat with 0%nat in Hj by lia.
      injection Hj as <-.
      assert (Ha : a ∈ xs).
      { apply elem_of_unique. apply list_elem_of_lookup. by exists i. }
      apply list_elem_of_lookup in Ha as [n Hn]. apply (Hlift n Hn).
      intros (k & Hk & _)%elem_of_take. apply Hx.
      apply list_elem_of_lookup. by exists k.
Qed.

(** The groups of a list by a key, taken over keys that are pairwise
    different and cover the list, hold every element once. *)
Lemma groups_Permutation {A K} `{EqDecision K} (f : A → K) (l : list A)
    (ks : list K) :
  NoDup ks → (∀ x, x ∈ l → f x ∈ ks) →
  ks ≫= (λ k, filter (λ x, f x = k) l) ≡ₚ l.
Proof.
  intros Hnd. induction l as [|x l IH]; intros Hcover.
  - clear. induction ks as [|k ks IH]; [done|]. by rewrite bind_cons, IH.
  - etrans; [|apply Permutation_skip, IH; intros y Hy; apply Hcover;
               by right].
    assert (Hx : f x ∈ ks) by (apply Hcover; by left).
    clear IH Hcover. induction ks as [|k ks IH]; [by apply elem_of_nil in Hx|].
    apply NoDup_cons in Hnd as [Hk Hnd]. rewrite !bind_cons.
    destruct (decide (f x = k)) as [Heq|Hne].
    + rewrite filter_cons_True by done. simpl. apply Permutation_skip.
      apply Permutation_app_head.
      assert (Hrest : ∀ ks', f x ∉ ks' →
        ks' ≫= (λ k0, filter (λ x0, f x0 = k0) (x :: l)) =
        ks' ≫= (λ k0, filter (λ x0, f x0 = k0) l)).
      { clear. intros ks' Hnot. induction ks' as [|k' ks' IH]; [done|].
        apply not_elem_of_cons in Hnot as [Hne Hnot].
        rewrite !bind_cons, IH by done.
        by rewrite filter_cons_False by done. }
      rewrite Hrest; [done|]. by rewrite Heq.
    + rewrite filter_cons_False by done.
      apply elem_of_cons in Hx as [Hx|Hx]; [done|].
      rewrite (IH Hnd Hx). symmetry. apply Permutation_middle.
Qed.

Lemma prefix_app (sub s : string) :
  String.prefix sub s = true ↔ ∃ post, s = sub +:+ post.
Proof.
  revert s. induction sub as [|a sub IH]; intros s.
  - split; [by exists s|]. by destruct s.
  - destruct s as [|b s]; simpl.
    + split; [done|]. by intros [post [=]].
    + destruct (ascii_dec a b) as [->|Hne].
      * rewrite IH. split.
        -- intros [post ->]. by exists post.
        -- intros [post [= ->]]. by exists post.
      * split; [done|]. intros [post [= ? _]]. by subst.
Qed.

(** [includes] finds [sub] somewhere in [s]. *)
Lemma includes_spec (s sub : string) :
  includes s sub = true ↔ ∃ pre post, s = pre +:+ sub +:+ post.
Proof.
  induction s as [|a s IH]; cbn [includes].
  - rewrite orb_false_r, prefix_app. split.
    + intros [post ->]. by exists EmptyString, post.
    + intros ([|b pre] & post & Heq); [by exists post|done].
  - rewrite orb_true_iff, prefix_app, IH. split.
    + intros [[post ->]|(pre & post & ->)].
      * by exists EmptyString, post.
      * by exists (String a pre), post.
    + intros ([|b pre] & post & Heq).
      * left. by exists post.
      * right. injection Heq as -> ->. by exists pre, post.
Qed.

End JsFacts.

(** ** The seat map *)

Module RenderFacts.
Import Render.

Lemma render_SeatMap st rows summary :
  render st = View.SeatMap rows summary →
  mounted st = true ∧ loading st = false ∧
  ∃ sh, showtime st = Some sh ∧ rows = seat_rows st ∧
        summary = Render.summary st sh.
Proof.
  unfold render.
  destruct (mounted st), (loading st), (showtime st) as [sh|]; try done.
  intros [= <- <-]. split_and!; [done..|]. by exists sh.
Qed.

Lemma seats_of_rows st :
  View.seat <$> (seat_rows st ≫= View.buttons) =
  Js.unique (seat_row <$> seats st) ≫=
    (λ row, filter (λ s, seat_row s = row) (seats st)).
Proof.
  unfold seat_rows.
  induction (Js.unique (seat_row <$> seats st)) as [|row rows IH]; [done|].
  rewrite fmap_cons, !bind_cons, fmap_app, IH. simpl.
  f_equal. rewrite <-list_fmap_compose. apply list_fmap_id.
Qed.

(** The rows the layout loops give to the set of rows: one label for every
    row descriptor that has seats. *)
Lemma fold_set_add_rows booked layout acc :
  NoDup (row <$> layout) →
  (∀ rowData, rowData ∈ layout → row rowData ∉ acc) →
  fold_left Js.set_add
    (seat_row <$> (layout ≫= Layout.row_seats booked)) acc =
  acc ++ (row <$> filter (λ rowData, 1 ≤ cols rowData) layout).
Proof.
  revert acc. induction layout as [|rowData layout IH]; intros acc Hnd Hacc.
  - simpl. by rewrite app_nil_r.
  - rewrite fmap_cons in Hnd. apply NoDup_cons in Hnd as [Hnot Hnd].
    rewrite bind_cons, fmap_app, fold_left_app.
    assert (Hblock : ∀ n start,
      fold_left Js.set_add
        (seat_row <$> (Layout.seat_at booked rowData <$> seqZ start n)) acc =
      if bool_decide (1 ≤ n) then acc ++ [row rowData] else acc).
    { intros n start.
      assert (Hin : ∀ m start', fold_left Js.set_add
        (seat_row <$> (Layout.seat_at booked rowData <$>
                       seqZ start' (Z.of_nat m))) (acc ++ [row rowData]) =
        acc ++ [row rowData]).
      { induction m as [|m IHm]; intros start'; [done|].
        rewrite seqZ_cons by lia. simpl. unfold Js.set_add at 2.
        rewrite bool_decide_eq_true_2
          by (apply elem_of_app; right; by left).
        replace (Z.pred (Z.of_nat (S m))) with (Z.of_nat m) by lia.
        apply IHm. }
      case_bool_decide as Hn.
      - rewrite seqZ_cons by lia. simpl. unfold Js.set_add at 2.
        rewrite bool_decide_eq_false_2 by (apply Hacc; by left).
        replace (Z.pred n) with (Z.of_nat (Z.to_nat (Z.pred n))) by lia.
        apply Hin.
      - by rewrite seqZ_nil by lia. }
    unfold Layout.row_seats at 2. rewrite Hblock.
    rewrite filter_cons. destruct (decide (1 ≤ cols rowData)) as [Hpos|Hneg].
    + rewrite bool_decide_eq_true_2 by done.
      rewrite IH; [by rewrite fmap_cons, <-app_assoc|done|].
      intros r Hr. rewrite not_elem_of_app. split; [apply Hacc; by right|].
      intros Heq%list_elem_of_singleton. apply Hnot. rewrite <-Heq.
      by apply list_elem_of_fmap_2.
    + rewrite bool_decide_eq_false_2 by done.
      apply IH; [done|]. intros r Hr. apply Hacc. by right.
Qed.

(** The seats the layout loops give, filtered on the label of one of its
    rows: the seats of that row. *)
Lemma filter_row_seats booked layout rowData :
  NoDup (row <$> layout) → rowData ∈ layout →
  filter (λ s, seat_row s = row rowData)
    (layout ≫= Layout.row_seats booked) =
  Layout.row_seats booked rowData.
Proof.
  assert (Hsame : ∀ r, filter (λ s, seat_row s = row r)
            (Layout.row_seats booked r) = Layout.row_seats booked r).
  { intros r. apply DbFacts.filter_all.
    by intros s (c & -> & _)%list_elem_of_fmap. }
  assert (Hother : ∀ r r', row r' ≠ row r → filter (λ s, seat_row s = row r)
            (Layout.row_seats booked r') = []).
  { intros r r' Hne. apply DbFacts.filter_none.
    by intros s (c & -> & _)%list_elem_of_fmap. }
  induction layout as [|r' layout IH]; intros Hnd Hin.
  - by apply elem_of_nil in Hin.
  - rewrite fmap_cons in Hnd. apply NoDup_cons in Hnd as [Hnot Hnd].
    rewrite bind_cons, filter_app.
    apply elem_of_cons in Hin as [->|Hin].
    + rewrite Hsame. rewrite DbFacts.filter_none; [by rewrite app_nil_r|].
      intros s (r2 & Hs & Hr2)%list_elem_of_bind Heq.
      apply list_elem_of_fmap in Hs as (c & -> & _). simpl in Heq.
      apply Hnot. rewrite <-Heq. by apply list_elem_of_fmap_2.
    + rewrite Hother, IH; [done..|].
      intros Heq. apply Hnot. rewrite Heq. by apply list_elem_of_fmap_2.
Qed.

(** The groups of the rows that have seats, one after the other. *)
Lemma bind_row_groups booked (all : list Seat) layout :
  (∀ rowData, rowData ∈ layout →
     filter (λ s, seat_row s = row rowData) all =
     Layout.row_seats booked rowData) →
  (row <$> filter (λ rowData, 1 ≤ cols rowData) layout) ≫=
    (λ lbl, filter (λ s, seat_row s = lbl) all) =
  layout ≫= Layout.row_seats booked.
Proof.
  induction layout as [|rowData layout IH]; intros Hgroup; [done|].
  rewrite filter_cons, bind_cons.
  destruct (decide (1 ≤ cols rowData)) as [Hpos|Hneg].
  - rewrite fmap_cons, bind_cons, IH.
    + f_equal. apply Hgroup. by left.
    + intros r Hr. apply Hgroup. by right.
  - rewrite IH.
    + unfold Layout.row_seats at 2. by rewrite seqZ_nil by lia.
    + intros r Hr. apply Hgroup. by right.
Qed.

End RenderFacts.

(** X1. The seat map has one line per row label of [seats], no label
    twice, and the lines stand in the order in which the labels first occur
    in [seats]: of two lines the upper one has a seat at a place of [seats]
    before which no seat of the lower one stands. The buttons of all lines
    are the seats, every seat once; the buttons of a line are the seats
    with the label of the line, in the order of [seats], at least one, each
    with the state classes of its seat. *)
Theorem seat_map_shows_every_seat_once (st : State) (rows : list View.Row)
    (summary : option View.Summary) :
  Render.render st = View.SeatMap rows summary →
  NoDup (View.heading <$> rows) ∧
  (∀ row, row ∈ View.heading <$> rows ↔ row ∈ seat_row <$> seats st) ∧
  (∀ i j upper lower,
     (View.heading <$> rows) !! i = Some upper →
     (View.heading <$> rows) !! j = Some lower → (i < j)%nat →
     ∃ n, (seat_row <$> seats st) !! n = Some upper ∧
          lower ∉ take n (seat_row <$> seats st)) ∧
  View.seat <$> (rows ≫= View.buttons) ≡ₚ seats st ∧
  ∀ r, r ∈ rows →
    View.buttons r ≠ [] ∧
    View.seat <$> View.buttons r =
      filter (λ s, seat_row s = View.heading r) (seats st) ∧
    ∀ b, b ∈ View.buttons r →
      View.disabled b = isBooked (View.seat b) ∧
      View.states b = seat_states (selectedSeats st) (View.seat b).
Proof.
  intros (_ & _ & sh & _ & -> & _)%RenderFacts.render_SeatMap.
  assert (Hhead : View.heading <$> Render.seat_rows st =
                  Js.unique (seat_row <$> seats st)).
  { unfold Render.seat_rows. rewrite <-list_fmap_compose.
    apply list_fmap_id. }
  split_and!.
  - rewrite Hhead. apply JsFacts.NoDup_unique.
  - intros row. rewrite Hhead. apply JsFacts.elem_of_unique.
  - rewrite Hhead. apply JsFacts.unique_order.
  - rewrite RenderFacts.seats_of_rows. apply JsFacts.groups_Permutation.
    + apply JsFacts.NoDup_unique.
    + intros s Hs. apply JsFacts.elem_of_unique.
      by apply list_elem_of_fmap_2.
  - intros r (lbl & -> & Hlbl)%list_elem_of_fmap. simpl.
    apply (proj1 (JsFacts.elem_of_unique _ _)) in Hlbl.
    apply list_elem_of_fmap in Hlbl as (s & -> & Hs).
    rewrite <-list_fmap_compose.
    assert (Hid : View.seat ∘ Render.seat_button st = id) by done.
    rewrite Hid, list_fmap_id. split_and!.
    + intros Hnil%fmap_nil_inv.
      eapply (filter_nil_not_elem_of _ _ s) in Hnil; done.
    + done.
    + by intros b (s' & -> & _)%list_elem_of_fmap.
Qed.

(** Alice's page with A1 and B2 selected: lines A and B, four buttons. *)
Lemma seat_map_shows_every_seat_once_witness :
  let st := Scenario.picked Scenario.alice Scenario.db0 ["A1"; "B2"] in
  ∃ rows summary,
    Render.render st = View.SeatMap rows summary ∧
    View.heading <$> rows = ["A"; "B"] ∧
    View.seat <$> (rows ≫= View.buttons) ≡ₚ seats st.
Proof.
  intros st. exists (Render.seat_rows st), (Render.summary st Scenario.s1).
  assert (Hrender : Render.render st =
    View.SeatMap (Render.seat_rows st) (Render.summary st Scenario.s1))
    by reflexivity.
  split_and!.
  - exact Hrender.
  - vm_compute. reflexivity.
  - apply (seat_map_shows_every_seat_once st _ _ Hrender).
Defined.

(** X2. After a fetch that reads a showtime whose hall has pairwise
    different row labels, the seat map follows the layout: one line for
    every row descriptor that has seats, in the order of the layout, with
    the buttons of the columns [1..cols] in order; so the buttons of all
    lines, read line by line, are [seats] as the fetch has set them. *)
Theorem seat_map_follows_layout (p : Props) (db1 db2 : Store) (st : State)
    (sh : Showtime.t) :
  select_showtime db1 (showtimeId p) = inr sh →
  NoDup (row <$> Showtime.seat_layout sh) →
  let st' := fetchShowtimeAndSeats p db1 db2 st in
  let bookedSeatLabels : gset string :=
    list_to_set (booked_labels db2 (showtimeId p)) in
  Render.seat_rows st' =
    (λ rowData,
       {| View.heading := row rowData;
          View.buttons :=
            Render.seat_button st' <$>
              (seat_at bookedSeatLabels rowData <$> seqZ 1 (cols rowData)) |})
    <$> filter (λ rowData, 1 ≤ cols rowData) (Showtime.seat_layout sh) ∧
  View.seat <$> (Render.seat_rows st' ≫= View.buttons) = seats st'.
Proof.
  intros Hsel Hnd st' booked.
  assert (Hseats : seats st' =
    Showtime.seat_layout sh ≫= Layout.row_seats booked).
  { subst st'. rewrite (PageFacts.fetchShowtimeAndSeats_read _ _ _ _ _ Hsel).
    simpl. apply LayoutFacts.generateSeats_bind. }
  assert (Hrows : Js.unique (seat_row <$> seats st') =
    row <$> filter (λ rowData, 1 ≤ cols rowData) (Showtime.seat_layout sh)).
  { rewrite Hseats. unfold Js.unique.
    rewrite RenderFacts.fold_set_add_rows; [done|done|].
    intros r _. apply not_elem_of_nil. }
  assert (Hgroup : ∀ rowData, rowData ∈ Showtime.seat_layout sh →
    filter (λ s, seat_row s = row rowData) (seats st') =
    Layout.row_seats booked rowData).
  { intros rowData Hin. rewrite Hseats.
    by apply RenderFacts.filter_row_seats. }
  split.
  - unfold Render.seat_rows. rewrite Hrows, <-list_fmap_compose.
    apply Forall_fmap_ext, Forall_forall.
    intros rowData [_ Hin]%list_elem_of_filter. simpl.
    by rewrite Hgroup.
  - rewrite RenderFacts.seats_of_rows, Hrows.
    rewrite (RenderFacts.bind_row_groups booked) by done.
    by rewrite Hseats.
Qed.

(** The hall of the scenario: a line A and a line B, A1 to B2 in order. *)
Lemma seat_map_follows_layout_witness :
  let st' :=
    fetchShowtimeAndSeats Scenario.alice Scenario.db0 Scenario.db0 initial in
  View.heading <$> Render.seat_rows st' = ["A"; "B"] ∧
  label <$> (View.seat <$> (Render.seat_rows st' ≫= View.buttons)) =
    ["A1"; "A2"; "B1"; "B2"].
Proof.
  intros st'.
  destruct (seat_map_follows_layout Scenario.alice Scenario.db0 Scenario.db0
              initial Scenario.s1) as [Hrows Hseats].
  - reflexivity.
  - apply (bool_decide_unpack _). vm_compute. exact I.
  - subst st'. split.
    + rewrite Hrows. vm_compute. reflexivity.
    + rewrite Hseats. vm_compute. reflexivity.
Defined.

(** X3. When the page shows the booking summary and a user is signed in, a
    press of Confirm is not turned away at the guard. The booking row the
    store returns has the total the summary shows, the selected seats the
    summary lists and the user as owner; from then on the page shows the
    same lines with the Confirm button disabled and labelled Processing.
    Every way the handler comes back lowers the [booking] flag again: when
    the store refuses the booking row, the page shows the failure and the
    same seat map and summary with the button enabled; when the seats have
    been inserted or refused, whatever has happened on the page in between,
    the flag is down, and the page is as it was apart from the toast after
    a failure and is off the tree after a confirmation. *)
Theorem confirm_button_submits_what_it_shows (p : Props) (st : State)
    (u : User.t) (rows : list View.Row) (s : View.Summary) (db : Store) :
  Render.render st = View.SeatMap rows (Some s) →
  user p = Some u →
  View.selected_text s = String.concat ", " (selectedSeats st) ∧
  View.confirm_disabled s = booking st ∧
  (handleBooking_begin p st db).2 ≠ inl Returned ∧
  (∀ db' st' pend,
     handleBooking_begin p st db = (db', st', inr pend) →
     Booking.total_price (bookingData pend) = View.total s ∧
     Booking.seats (bookingData pend) = selectedSeats st ∧
     Booking.user_id (bookingData pend) = User.id u ∧
     ∃ s', Render.render st' = View.SeatMap rows (Some s') ∧
           View.confirm_disabled s' = true ∧
           View.confirm_label s' = "Processing..." ∧
           View.selected_text s' = View.selected_text s ∧
           View.total s' = View.total s) ∧
  (∀ db' st' o,
     handleBooking_begin p st db = (db', st', inl o) →
     ∃ e, o = Failed e ∧ db' = db ∧ booking st' = false ∧
          toasts st' = toasts st ++ [booking_failed e] ∧
          ∃ s', Render.render st' = View.SeatMap rows (Some s') ∧
                View.confirm_disabled s' = false ∧
                View.confirm_label s' = "Confirm Booking" ∧
                View.selected_text s' = View.selected_text s ∧
                View.total s' = View.total s) ∧
  (∀ pend st0 db0 db1 st1 o,
     handleBooking_finish p pend st0 db0 = (db1, st1, o) →
     booking st1 = false ∧
     (∀ e, o = Failed e →
        st1 = setBooking false (toast (booking_failed e) st0) ∧
        Render.seat_rows st1 = Render.seat_rows st0) ∧
     (o = Confirmed → Render.render st1 = View.NotMounted)).
Proof.
  intros (Hmounted & Hload & sh & Hsh & -> & Hsum)%RenderFacts.render_SeatMap
    Hu.
  unfold Render.summary in Hsum. case_bool_decide as Hlen; [|done].
  injection Hsum as ->.
  assert (Hne : selectedSeats st ≠ []).
  { intros Heq. rewrite Heq in Hlen. simpl in Hlen. lia. }
  rewrite (PageFacts.handleBooking_begin_past_guard p st db u sh) by done.
  split_and!; try done.
  - by destruct (insert_booking _ _ _ _ _) as [db' [e|b]].
  - intros db' st' pend.
    destruct (insert_booking _ _ _ _ _) as [db1 [e|b]] eqn:Hins; [done|].
    apply DbFacts.insert_booking_inr in Hins as (_ & -> & _).
    intros [= <- <- <-]. simpl. split_and!; try done.
    unfold Render.render. simpl. rewrite Hmounted, Hload, Hsh.
    unfold Render.summary. simpl. rewrite bool_decide_eq_true_2 by done.
    eexists. split; [reflexivity|]. done.
  - intros db' st' o.
    destruct (insert_booking _ _ _ _ _) as [db1 [e|b]] eqn:Hins; [|done].
    apply DbFacts.insert_booking_inl in Hins as [-> _].
    intros [= <- <- <-]. exists e. split_and!; try done.
    unfold Render.render. simpl. rewrite Hmounted, Hload, Hsh.
    unfold Render.summary. simpl. rewrite bool_decide_eq_true_2 by done.
    eexists. split; [reflexivity|]. done.
  - intros pend st0 db0 db1 st1 o
      [(e & -> & ->)|[-> ->]]%PageFacts.handleBooking_finish_state.
    + split_and!; [done| |done]. by intros e' [= <-].
    + done.
Qed.

Lemma confirm_button_submits_what_it_shows_witness :
  let st := Scenario.picked Scenario.alice Scenario.db0 ["A1"; "B2"] in
  ∃ rows s db' st' pend,
    Render.render st = View.SeatMap rows (Some s) ∧
    View.selected_text s = "A1, B2" ∧ View.total s = 2000 ∧
    handleBooking_begin Scenario.alice st Scenario.db0 =
      (db', st', inr pend) ∧
    Booking.total_price (bookingData pend) = View.total s.
Proof.
  intros st.
  destruct (Render.render st) as [| |rows [s|]] eqn:Hrender;
    [by vm_compute in Hrender..| |by vm_compute in Hrender].
  destruct (handleBooking_begin Scenario.alice st Scenario.db0)
    as [[db' st'] [o|pend]] eqn:Hbegin.
  { exfalso. pose proof (f_equal snd Hbegin) as Ho. cbn [snd] in Ho.
    revert Ho. vm_compute. discriminate. }
  pose proof (confirm_button_submits_what_it_shows Scenario.alice st
                (User.mk "alice") rows s Scenario.db0 Hrender eq_refl)
    as (Htext & _ & _ & Hrow & _).
  destruct (Hrow db' st' pend Hbegin) as (Htotal & _).
  exists rows, s, db', st', pend. split_and!; [reflexivity| | |done|done].
  - rewrite Htext. vm_compute. reflexivity.
  - revert Hrender. vm_compute. by intros [= _ <-].
Defined.

(** ** Reading the store *)

(** X4. After a fetch that reads the showtime, a seat of the page is marked
    booked exactly when the store, at the time the reserved seats were
    read, holds a reservation of its label for this showtime. *)
Theorem fetch_marks_reserved_seats (p : Props) (db1 db2 : Store) (st : State)
    (sh : Showtime.t) (seat : Seat) :
  select_showtime db1 (showtimeId p) = inr sh →
  seat ∈ seats (fetchShowtimeAndSeats p db1 db2 st) →
  isBooked seat = true ↔ reserved db2 (showtimeId p) (label seat).
Proof.
  intros Hsel. rewrite (PageFacts.fetchShowtimeAndSeats_read _ _ _ _ _ Hsel).
  simpl. intros (rowData & c & _ & _ & ->)%LayoutFacts.elem_of_generateSeats.
  simpl. rewrite bool_decide_eq_true, elem_of_list_to_set.
  symmetry. apply reserved_booked_labels.
Qed.

Lemma fetch_marks_reserved_seats_witness :
  let st' :=
    fetchShowtimeAndSeats Scenario.bob Scenario.db1 Scenario.db1 initial in
  let a1 := mkSeat "A1" "A" 1 (Some "standard") true in
  a1 ∈ seats st' ∧ reserved Scenario.db1 "s1" "A1" ∧
  isBooked <$> seats st' = [true; false; false; true].
Proof.
  intros st' a1.
  assert (Hin : a1 ∈ seats st').
  { replace (seats st') with (a1 :: tail (seats st'))
      by (vm_compute; reflexivity).
    apply list_elem_of_here. }
  split_and!.
  - exact Hin.
  - apply (fetch_marks_reserved_seats Scenario.bob Scenario.db1 Scenario.db1
             initial Scenario.s1 a1); [reflexivity|exact Hin|reflexivity].
  - vm_compute. reflexivity.
Defined.

(** X5. What a fetch makes of the page depends on the second read only
    through the set of seats that are reserved for this showtime: two
    stores that reserve the same seats of the showtime give the same page,
    whatever they hold for other showtimes, in whatever order, for whatever
    bookings. *)
Theorem fetch_depends_on_reserved_set (p : Props) (db1 db2 db2' : Store)
    (st : State) :
  (∀ seatLabel, reserved db2 (showtimeId p) seatLabel ↔
                reserved db2' (showtimeId p) seatLabel) →
  fetchShowtimeAndSeats p db1 db2 st = fetchShowtimeAndSeats p db1 db2' st.
Proof.
  intros Hsame. unfold fetchShowtimeAndSeats, select_booked_seats.
  destruct (select_showtime db1 (showtimeId p)) as [e|sh]; [done|].
  assert (Hset : list_to_set (booked_labels db2 (showtimeId p)) =@{gset string}
                 list_to_set (booked_labels db2' (showtimeId p))).
  { apply set_eq. intros l.
    rewrite !elem_of_list_to_set, <-!reserved_booked_labels. apply Hsame. }
  by rewrite Hset.
Qed.

(** A reservation of A1 for another showtime, put before Alice's rows,
    changes nothing on Bob's page. *)
Lemma fetch_depends_on_reserved_set_witness :
  let db2' :=
    {| profiles := profiles Scenario.db1;
       showtimes := showtimes Scenario.db1;
       bookings := bookings Scenario.db1;
       booked_seats :=
         BookedSeat.mk "s2" "A2" 0 :: booked_seats Scenario.db1;
       next_uuid := next_uuid Scenario.db1 |} in
  fetchShowtimeAndSeats Scenario.bob Scenario.db1 Scenario.db1 initial =
  fetchShowtimeAndSeats Scenario.bob Scenario.db1 db2' initial.
Proof.
  intros db2'. apply fetch_depends_on_reserved_set.
  intros seatLabel. unfold reserved. subst db2'. simpl.
  rewrite elem_of_cons. split; [by right|]. by intros [[=]|?].
Defined.

(** X6. Of two fetches one after the other the later decides: when it reads
    the showtime, the seats and the showtime of the page are those it would
    have set on the page as it was before the earlier one; when it does
    not, the seats and the showtime of the earlier one stay and the error
    toast is added. Either way the selection is untouched and [loading] is
    lowered. *)
Theorem last_fetch_wins (p : Props) (db1 db2 db3 db4 : Store) (st : State) :
  let earlier := fetchShowtimeAndSeats p db1 db2 st in
  let later := fetchShowtimeAndSeats p db3 db4 earlier in
  selectedSeats later = selectedSeats st ∧ loading later = false ∧
  (∀ sh, select_showtime db3 (showtimeId p) = inr sh →
     seats later = seats (fetchShowtimeAndSeats p db3 db4 st) ∧
     showtime later = Some sh ∧
     toasts later = toasts earlier) ∧
  (∀ e, select_showtime db3 (showtimeId p) = inl e →
     seats later = seats earlier ∧ showtime later = showtime earlier ∧
     toasts later = toasts earlier ++ [error_loading_seats]).
Proof.
  intros earlier later. subst later. split_and!.
  - rewrite PageFacts.selectedSeats_fetch. apply PageFacts.selectedSeats_fetch.
  - done.
  - intros sh Hsel.
    by rewrite !(PageFacts.fetchShowtimeAndSeats_read _ _ _ _ _ Hsel).
  - intros e Hsel.
    assert (Heq : fetchShowtimeAndSeats p db3 db4 earlier =
                  setLoading false (toast error_loading_seats earlier))
      by (unfold fetchShowtimeAndSeats at 1; by rewrite Hsel).
    by rewrite Heq.
Qed.

(** Bob's page fetched on the empty store and again after Alice's booking
    shows A1 and B2 as booked. *)
Lemma last_fetch_wins_witness :
  let earlier :=
    fetchShowtimeAndSeats Scenario.bob Scenario.db0 Scenario.db0 initial in
  let later :=
    fetchShowtimeAndSeats Scenario.bob Scenario.db1 Scenario.db1 earlier in
  isBooked <$> seats later = [true; false; false; true] ∧ toasts later = [].
Proof.
  intros earlier later.
  destruct (last_fetch_wins Scenario.bob Scenario.db0 Scenario.db0
              Scenario.db1 Scenario.db1 initial) as (_ & _ & Hok & _).
  destruct (Hok Scenario.s1) as (Hseats & _ & Htoasts); [reflexivity|].
  split.
  - subst later earlier. rewrite Hseats. vm_compute. reflexivity.
  - subst later earlier. rewrite Htoasts. vm_compute. reflexivity.
Defined.

(** ** Submitting, again *)

Module SubmitFacts.
Import Submit.

(** The store takes the booking row of the page: its total is in the range
    of the column, its user has a profile and its showtime exists. *)
Lemma accepted p st db u sh :
  Z.abs (Showtime.ticket_price sh * Z.of_nat (length (selectedSeats st)))
    < 10 ^ 10 →
  User.id u ∈ profiles db →
  showtime_exists db (showtimeId p) = true →
  check_booking db (User.id u) (showtimeId p)
    (Showtime.ticket_price sh * Z.of_nat (length (selectedSeats st))) = None.
Proof. intros. by apply DbFacts.check_booking_None. Qed.

Lemma handleBooking_past_guard p st db u sh :
  user p = Some u → showtime st = Some sh → selectedSeats st ≠ [] →
  check_booking db (User.id u) (showtimeId p)
    (Showtime.ticket_price sh * Z.of_nat (length (selectedSeats st))) = None →
  handleBooking p st db =
    handleBooking_finish p
      {| submitted := selectedSeats st;
         bookingData := new_booking p st db u sh |}
      (setBooking true st) (with_booking p st db u sh).
Proof.
  intros Hu Hsh Hne Hcheck. unfold handleBooking.
  rewrite (PageFacts.handleBooking_begin_past_guard p st db u sh) by done.
  by rewrite (DbFacts.insert_booking_ok _ _ _ _ _ Hcheck).
Qed.

(** A submission the store refuses the booking row of, in full. *)
Lemma handleBooking_refused p st db u sh e :
  user p = Some u → showtime st = Some sh → selectedSeats st ≠ [] →
  check_booking db (User.id u) (showtimeId p)
    (Showtime.ticket_price sh * Z.of_nat (length (selectedSeats st)))
    = Some e →
  handleBooking p st db =
    (db, setBooking false (toast (booking_failed e) (setBooking true st)),
     Failed e).
Proof.
  intros Hu Hsh Hne Hcheck. unfold handleBooking.
  rewrite (PageFacts.handleBooking_begin_past_guard p st db u sh) by done.
  unfold insert_booking. by rewrite Hcheck.
Qed.

(** A submission with a reserved seat, in full. *)
Lemma handleBooking_conflict_step p st db u sh seatLabel :
  user p = Some u → showtime st = Some sh →
  check_booking db (User.id u) (showtimeId p)
    (Showtime.ticket_price sh * Z.of_nat (length (selectedSeats st))) = None →
  seatLabel ∈ selectedSeats st → reserved db (showtimeId p) seatLabel →
  handleBooking p st db =
    (with_booking p st db u sh,
     setBooking false
       (toast (booking_failed unique_error) (setBooking true st)),
     Failed unique_error).
Proof.
  intros Hu Hsh Hcheck Hin Hres.
  assert (Hne : selectedSeats st ≠ [])
    by (intros Heq; rewrite Heq in Hin; by apply elem_of_nil in Hin).
  rewrite (handleBooking_past_guard p st db u sh) by done.
  apply DbFacts.check_booking_None in Hcheck as (_ & _ & Hex).
  set (pend := mkPending _ _).
  destruct (PageFacts.handleBooking_finish_conflict p pend
              (setBooking true st) (with_booking p st db u sh) seatLabel)
    as [e He]; [done..|].
  rewrite He.
  assert (Hbk : booking_exists (with_booking p st db u sh)
                  (Booking.id (bookingData pend)) = true).
  { unfold booking_exists. apply bool_decide_eq_true_2. simpl.
    rewrite fmap_app. apply elem_of_app. right. by left. }
  destruct (PageFacts.handleBooking_finish_failed p pend
              (setBooking true st) (with_booking p st db u sh) _ _ _
              Hex Hbk He) as (-> & _ & _).
  done.
Qed.

(** A submission of free seats, in full. *)
Lemma handleBooking_free_step p st db u sh :
  user p = Some u → showtime st = Some sh →
  check_booking db (User.id u) (showtimeId p)
    (Showtime.ticket_price sh * Z.of_nat (length (selectedSeats st))) = None →
  selectedSeats st ≠ [] → NoDup (selectedSeats st) →
  (∀ seatLabel, seatLabel ∈ selectedSeats st →
                ¬ reserved db (showtimeId p) seatLabel) →
  (handleBooking p st db).2 = Confirmed.
Proof.
  intros Hu Hsh Hcheck Hne Hnd Hfree.
  rewrite (handleBooking_past_guard p st db u sh) by done.
  apply DbFacts.check_booking_None in Hcheck as (_ & _ & Hex).
  unfold handleBooking_finish, insert_booked_seats.
  rewrite DbFacts.insert_rows_ok; [done| | |].
  - intros r (l & -> & _)%list_elem_of_fmap. simpl. split; [done|].
    unfold booking_exists. apply bool_decide_eq_true_2. simpl.
    rewrite fmap_app. apply elem_of_app. right. by left.
  - unfold seatReservations. rewrite <-list_fmap_compose. simpl.
    apply NoDup_fmap_2; [|done]. by intros l1 l2 [= ->].
  - intros r (l & -> & Hl)%list_elem_of_fmap. by apply Hfree.
Qed.

(** The two requests of a submission only append rows. *)
Lemma handleBooking_begin_grows p st db db' st' r :
  handleBooking_begin p st db = (db', st', r) →
  showtimes db' = showtimes db ∧
  bookings db `prefix_of` bookings db' ∧
  booked_seats db `prefix_of` booked_seats db'.
Proof.
  unfold handleBooking_begin.
  destruct (user p), (showtime st); try by intros [= <- _ _].
  case_bool_decide; [by intros [= <- _ _]|].
  unfold insert_booking. destruct (check_booking _ _ _ _); intros [= <- _ _].
  - done.
  - simpl. split_and!; [done| |done]. by apply prefix_app_r.
Qed.

Lemma handleBooking_finish_grows p pend st db db' st' o :
  handleBooking_finish p pend st db = (db', st', o) →
  showtimes db' = showtimes db ∧
  bookings db `prefix_of` bookings db' ∧
  booked_seats db `prefix_of` booked_seats db'.
Proof.
  unfold handleBooking_finish, insert_booked_seats.
  destruct (insert_rows _ _ _) as [e|table] eqn:Hins; intros [= <- _ _].
  - done.
  - apply DbFacts.insert_rows_inr in Hins as ->. simpl.
    split_and!; [done..|]. by apply prefix_app_r.
Qed.

Lemma step_grows cfg i :
  showtimes (store (Race.step cfg i)) = showtimes (store cfg) ∧
  bookings (store cfg) `prefix_of` bookings (store (Race.step cfg i)) ∧
  booked_seats (store cfg) `prefix_of`
    booked_seats (store (Race.step cfg i)).
Proof.
  unfold Race.step. destruct (clients cfg !! i) as [c|]; [|done].
  destruct (phase c) as [|pend|]; [| |done].
  - destruct (mounted (state c)); [|done].
    destruct (handleBooking_begin _ _ _) as [[db' st'] [o|pend]] eqn:Hb;
      by apply handleBooking_begin_grows in Hb.
  - destruct (handleBooking_finish _ _ _ _) as [[db' st'] o] eqn:Hf.
    by apply handleBooking_finish_grows in Hf.
Qed.

Lemma step_wf cfg i : wf (store cfg) → wf (store (Race.step cfg i)).
Proof.
  intros Hwf. unfold Race.step. destruct (clients cfg !! i) as [c|]; [|done].
  destruct (phase c) as [|pend|]; [| |done].
  - destruct (mounted (state c)); [|done].
    destruct (handleBooking_begin _ _ _) as [[db' st'] r] eqn:Hb.
    assert (wf db'); [|by destruct r].
    revert Hb. unfold handleBooking_begin.
    destruct (user (props c)), (showtime (state c));
      try by intros [= <- _ _].
    case_bool_decide; [by intros [= <- _ _]|].
    destruct (insert_booking _ _ _ _ _) as [db1 res] eqn:Hins.
    apply DbFacts.insert_booking_wf in Hins; [|done].
    by destruct res; intros [= <- _ _].
  - unfold handleBooking_finish.
    destruct (insert_booked_seats _ _) as [db' res] eqn:Hins.
    apply DbFacts.insert_booked_seats_wf in Hins; [|done].
    by destruct res.
Qed.

Lemma step_ids cfg i :
  wf (store cfg) → NoDup (Booking.id <$> bookings (store cfg)) →
  NoDup (Booking.id <$> bookings (store (Race.step cfg i))).
Proof.
  intros Hwf Hnd. unfold Race.step.
  destruct (clients cfg !! i) as [c|]; [|done].
  destruct (phase c) as [|pend|]; [| |done].
  - destruct (mounted (state c)); [|done].
    destruct (handleBooking_begin _ _ _) as [[db' st'] r] eqn:Hb.
    assert (NoDup (Booking.id <$> bookings db')); [|by destruct r].
    revert Hb. unfold handleBooking_begin.
    destruct (user (props c)), (showtime (state c));
      try by intros [= <- _ _].
    case_bool_decide; [by intros [= <- _ _]|].
    unfold insert_booking. destruct (check_booking _ _ _ _);
      intros [= <- _ _]; [done|].
    simpl. rewrite fmap_app. apply NoDup_app. split_and!; [done| |].
    + intros x (b & -> & Hb%(proj1 (DbFacts.wf_alt _) Hwf))%list_elem_of_fmap.
      simpl. intros ?%list_elem_of_singleton. lia.
    + apply NoDup_singleton.
  - destruct (handleBooking_finish _ _ _ _) as [[db' st'] o] eqn:Hf.
    simpl. revert Hf. unfold handleBooking_finish, insert_booked_seats.
    destruct (insert_rows _ _ _); by intros [= <- _ _].
Qed.

End SubmitFacts.

(** X7. For a signed-in user on a page that has loaded a showtime, with a
    selection that is not empty and repeats no seat, the submission is
    confirmed exactly when the store takes the booking row (the total is
    in the range of [DECIMAL(10,2)], the user has a profile and the
    showtime is still there) and none of the selected seats is reserved
    for this showtime. *)
Theorem handleBooking_confirmed_iff_free (p : Props) (st : State) (db : Store)
    (u : User.t) (sh : Showtime.t) :
  user p = Some u → showtime st = Some sh →
  selectedSeats st ≠ [] → NoDup (selectedSeats st) →
  let totalPrice :=
    Showtime.ticket_price sh * Z.of_nat (length (selectedSeats st)) in
  (handleBooking p st db).2 = Confirmed ↔
  Z.abs totalPrice < 10 ^ 10 ∧
  User.id u ∈ profiles db ∧
  showtime_exists db (showtimeId p) = true ∧
  ∀ seatLabel, seatLabel ∈ selectedSeats st →
               ¬ reserved db (showtimeId p) seatLabel.
Proof.
  intros Hu Hsh Hne Hnd totalPrice. split.
  - intros Hok.
    destruct (check_booking db (User.id u) (showtimeId p) totalPrice)
      as [e|] eqn:Hcheck.
    { by rewrite (SubmitFacts.handleBooking_refused p st db u sh e) in Hok. }
    pose proof (proj1 (DbFacts.check_booking_None _ _ _ _) Hcheck)
      as (Hrange & Hprofile & Hex).
    split_and!; [done..|]. intros seatLabel Hin Hres.
    rewrite (SubmitFacts.handleBooking_conflict_step p st db u sh seatLabel)
      in Hok by done.
    done.
  - intros (Hrange & Hprofile & Hex & Hfree).
    apply (SubmitFacts.handleBooking_free_step p st db u sh); try done.
    by apply SubmitFacts.accepted.
Qed.

(** Alice's A1 and B2 are free on the empty store; Bob's A1 is not free
    after her booking; two seats at 99999999.99 each come to more than the
    column holds; Carol has no profile. *)
Lemma handleBooking_confirmed_iff_free_witness :
  (handleBooking Scenario.alice
     (Scenario.picked Scenario.alice Scenario.db0 ["A1"; "B2"])
     Scenario.db0).2 = Confirmed ∧
  (handleBooking Scenario.bob
     (Scenario.picked Scenario.bob Scenario.db0 ["A1"])
     Scenario.db1).2 ≠ Confirmed ∧
  (handleBooking Scenario.alice
     (Scenario.picked Scenario.alice Scenario.db_dear ["A1"; "B2"])
     Scenario.db_dear).2 ≠ Confirmed ∧
  (handleBooking Scenario.carol
     (Scenario.picked Scenario.carol Scenario.db0 ["A1"])
     Scenario.db0).2 ≠ Confirmed.
Proof.
  split_and!.
  - apply (handleBooking_confirmed_iff_free Scenario.alice _ Scenario.db0
             (User.mk "alice") Scenario.s1); try reflexivity.
    + vm_compute. discriminate.
    + apply (bool_decide_unpack _). vm_compute. exact I.
    + split_and!.
      * vm_compute. reflexivity.
      * apply (bool_decide_unpack _). vm_compute. exact I.
      * reflexivity.
      * intros seatLabel _ Hres. revert Hres. unfold reserved. simpl.
        apply not_elem_of_nil.
  - intros Hok.
    apply (proj1 (handleBooking_confirmed_iff_free Scenario.bob
             (Scenario.picked Scenario.bob Scenario.db0 ["A1"])
             Scenario.db1 (User.mk "bob") Scenario.s1
             eq_refl eq_refl
             ltac:(vm_compute; discriminate)
             ltac:(apply (bool_decide_unpack _); vm_compute; exact I)))
      in Hok as (_ & _ & _ & Hfree).
    apply (Hfree "A1").
    + apply (bool_decide_unpack _). vm_compute. exact I.
    + apply (bool_decide_unpack _). vm_compute. exact I.
  - intros Hok.
    apply (proj1 (handleBooking_confirmed_iff_free Scenario.alice
             (Scenario.picked Scenario.alice Scenario.db_dear ["A1"; "B2"])
             Scenario.db_dear (User.mk "alice") Scenario.s1_dear
             eq_refl eq_refl
             ltac:(vm_compute; discriminate)
             ltac:(apply (bool_decide_unpack _); vm_compute; exact I)))
      in Hok as (Hrange & _).
    revert Hrange. vm_compute. discriminate.
  - intros Hok.
    apply (proj1 (handleBooking_confirmed_iff_free Scenario.carol
             (Scenario.picked Scenario.carol Scenario.db0 ["A1"])
             Scenario.db0 (User.mk "carol") Scenario.s1
             eq_refl eq_refl
             ltac:(vm_compute; discriminate)
             ltac:(apply (bool_decide_unpack _); vm_compute; exact I)))
      in Hok as (_ & Hprofile & _).
    revert Hprofile. apply (bool_decide_eq_false_1 _). vm_compute.
    reflexivity.
Defined.

(** X8. However the requests of any clients interleave, the store only
    grows: [showtimes] stays as it is, the rows of [bookings] and of
    [booked_seats] stay where they are with new rows after them, so a seat
    that is reserved stays reserved, for the booking it was reserved
    for. *)
Theorem store_only_grows (db : Store) (pages : list (Props * State))
    (schedule : list nat) :
  let db' := store (run (start db pages) schedule) in
  showtimes db' = showtimes db ∧
  bookings db `prefix_of` bookings db' ∧
  booked_seats db `prefix_of` booked_seats db' ∧
  (∀ r, r ∈ booked_seats db → r ∈ booked_seats db') ∧
  (∀ sid seatLabel, reserved db sid seatLabel → reserved db' sid seatLabel).
Proof.
  intros db'.
  assert (Hgen : ∀ cfg,
    showtimes (store (run cfg schedule)) = showtimes (store cfg) ∧
    bookings (store cfg) `prefix_of` bookings (store (run cfg schedule)) ∧
    booked_seats (store cfg) `prefix_of`
      booked_seats (store (run cfg schedule))).
  { induction schedule as [|i schedule IH]; intros cfg; [done|].
    change (run cfg (i :: schedule)) with (run (step cfg i) schedule).
    destruct (IH (step cfg i)) as (Hs & Hb & Hr).
    destruct (SubmitFacts.step_grows cfg i) as (Hs' & Hb' & Hr').
    split_and!; [by rewrite Hs|by etrans..]. }
  destruct (Hgen (start db pages)) as (Hs & Hb & [rest Hr]).
  simpl in Hs, Hb, Hr. subst db'.
  split_and!; [exact Hs|exact Hb|by exists rest| |].
  - intros r Hin. rewrite Hr. apply elem_of_app. by left.
  - intros sid seatLabel. unfold reserved. rewrite Hr, fmap_app, elem_of_app.
    by left.
Qed.

(** X9. Pressing Confirm again and again on a selection that holds a
    reserved seat, without fetching, fails the same way every time, and the
    selection is kept. When the store takes the booking row (total in the
    range of its column, user with a profile, showtime there), after [k]
    presses [booked_seats] is what it was, while [bookings] has gained [k]
    rows, each with the selected seats, the user as owner and the status
    confirmed, and [k] toasts of the uniqueness failure have been shown.
    When the store refuses the booking row, [k] presses leave the store as
    it was and show [k] toasts of the store's reason. *)
Theorem resubmit_adds_booking_rows (k : nat) (p : Props) (st : State)
    (db : Store) (u : User.t) (sh : Showtime.t) (seatLabel : string) :
  user p = Some u → showtime st = Some sh →
  seatLabel ∈ selectedSeats st → reserved db (showtimeId p) seatLabel →
  let totalPrice :=
    Showtime.ticket_price sh * Z.of_nat (length (selectedSeats st)) in
  let r := Submit.resubmit k p st db in
  selectedSeats r.2 = selectedSeats st ∧
  booked_seats r.1 = booked_seats db ∧
  (Z.abs totalPrice < 10 ^ 10 → User.id u ∈ profiles db →
   showtime_exists db (showtimeId p) = true →
   (∃ new, bookings r.1 = bookings db ++ new ∧ length new = k ∧
      ∀ b, b ∈ new →
        Booking.seats b = selectedSeats st ∧
        Booking.user_id b = User.id u ∧
        Booking.booking_status b = "confirmed") ∧
   toasts r.2 = toasts st ++ replicate k (booking_failed unique_error)) ∧
  (∀ e, check_booking db (User.id u) (showtimeId p) totalPrice = Some e →
     r.1 = db ∧
     toasts r.2 = toasts st ++ replicate k (booking_failed e)).
Proof.
  intros Hu Hsh Hin Hres totalPrice r. subst r totalPrice.
  assert (Hne : ∀ st0 : State, seatLabel ∈ selectedSeats st0 →
            selectedSeats st0 ≠ []).
  { intros st0 H0 Heq. rewrite Heq in H0. by apply elem_of_nil in H0. }
  destruct (check_booking db (User.id u) (showtimeId p)
              (Showtime.ticket_price sh *
               Z.of_nat (length (selectedSeats st)))) as [e|] eqn:Hcheck.
  - assert (Hgen : ∀ st0, showtime st0 = Some sh →
              selectedSeats st0 = selectedSeats st →
              Submit.resubmit k p st0 db =
                (db, (Submit.resubmit k p st0 db).2) ∧
              selectedSeats (Submit.resubmit k p st0 db).2 =
                selectedSeats st ∧
              toasts (Submit.resubmit k p st0 db).2 =
                toasts st0 ++ replicate k (booking_failed e)).
    { induction k as [|k IH]; intros st0 Hsh0 Hsel0.
      - simpl. by rewrite app_nil_r.
      - cbn [Submit.resubmit].
        rewrite (SubmitFacts.handleBooking_refused p st0 db u sh e);
          [|done|done|apply Hne; by rewrite Hsel0|by rewrite Hsel0].
        destruct (IH (setBooking false
                        (toast (booking_failed e) (setBooking true st0))))
          as (Hdb & Hsel & Htoasts); [done..|].
        split_and!; [done|done|].
        rewrite Htoasts. simpl. by rewrite <-app_assoc. }
    destruct (Hgen st Hsh eq_refl) as (Hdb & Hsel & Htoasts).
    split_and!.
    + done.
    + by rewrite Hdb.
    + intros H1 H2 H3.
      assert (Hnone : check_booking db (User.id u) (showtimeId p)
                (Showtime.ticket_price sh *
                 Z.of_nat (length (selectedSeats st))) = None)
        by (by apply DbFacts.check_booking_None).
      congruence.
    + intros e' [= <-]. split; [by rewrite Hdb|done].
  - assert (Hgen : ∀ st0 db0, showtime st0 = Some sh →
              selectedSeats st0 = selectedSeats st →
              profiles db0 = profiles db → showtimes db0 = showtimes db →
              reserved db0 (showtimeId p) seatLabel →
              selectedSeats (Submit.resubmit k p st0 db0).2 =
                selectedSeats st ∧
              booked_seats (Submit.resubmit k p st0 db0).1 =
                booked_seats db0 ∧
              (∃ new,
                 bookings (Submit.resubmit k p st0 db0).1 =
                   bookings db0 ++ new ∧ length new = k ∧
                 ∀ b, b ∈ new →
                   Booking.seats b = selectedSeats st ∧
                   Booking.user_id b = User.id u ∧
                   Booking.booking_status b = "confirmed") ∧
              toasts (Submit.resubmit k p st0 db0).2 =
                toasts st0 ++ replicate k (booking_failed unique_error)).
    { induction k as [|k IH]; intros st0 db0 Hsh0 Hsel0 Hp0 Hs0 Hres0.
      - simpl. split_and!; [done..| |by rewrite app_nil_r].
        exists []. split_and!; [by rewrite app_nil_r|done|].
        by intros b ?%elem_of_nil.
      - cbn [Submit.resubmit].
        assert (Hcheck0 : check_booking db0 (User.id u) (showtimeId p)
                  (Showtime.ticket_price sh *
                   Z.of_nat (length (selectedSeats st0))) = None).
        { rewrite Hsel0. by rewrite (DbFacts.check_booking_grows db db0). }
        rewrite (SubmitFacts.handleBooking_conflict_step p st0 db0 u sh
                   seatLabel); [|done|done|done|by rewrite Hsel0|done].
        destruct (IH (setBooking false
                        (toast (booking_failed unique_error)
                           (setBooking true st0)))
                     (Submit.with_booking p st0 db0 u sh))
          as (Hsel & Hseats & (new & Hrows & Hlen & Hnew) & Htoasts);
          [done..|].
        split_and!.
        + done.
        + by rewrite Hseats.
        + exists (new_booking p st0 db0 u sh :: new). split_and!.
          * rewrite Hrows. simpl. by rewrite <-app_assoc.
          * simpl. by rewrite Hlen.
          * intros b [->|Hb]%elem_of_cons; [by rewrite <-Hsel0|].
            by apply Hnew.
        + rewrite Htoasts. simpl. by rewrite <-app_assoc. }
    destruct (Hgen st db Hsh eq_refl eq_refl eq_refl Hres)
      as (Hsel & Hseats & Hrows & Htoasts).
    split_and!; [done|done|by intros _ _ _|done].
Qed.

(** Bob presses Confirm three times on the taken A1. *)
Lemma resubmit_adds_booking_rows_witness :
  let r :=
    Submit.resubmit 3 Scenario.bob
      (Scenario.picked Scenario.bob Scenario.db0 ["A1"]) Scenario.db1 in
  booked_seats r.1 = booked_seats Scenario.db1 ∧
  length (bookings r.1) = 4%nat ∧ length (toasts r.2) = 3%nat.
Proof.
  intros r.
  destruct (resubmit_adds_booking_rows 3 Scenario.bob
              (Scenario.picked Scenario.bob Scenario.db0 ["A1"])
              Scenario.db1 (User.mk "bob") Scenario.s1 "A1")
    as (_ & Hseats & Haccepted & _).
  - reflexivity.
  - reflexivity.
  - apply (bool_decide_unpack _). vm_compute. exact I.
  - apply (bool_decide_unpack _). vm_compute. exact I.
  - destruct Haccepted as ((new & Hrows & Hlen & _) & Htoasts).
    + vm_compute. reflexivity.
    + apply (bool_decide_unpack _). vm_compute. exact I.
    + reflexivity.
    + subst r. split_and!.
      * exact Hseats.
      * rewrite Hrows, length_app, Hlen. reflexivity.
      * rewrite Htoasts. reflexivity.
Defined.

(** X10. The constraints of the schema are kept however the requests of any
    clients interleave: from a store where no (showtime, seat) is reserved
    twice, every reservation refers to a booking and the identifiers still
    to come are new, every run leads to such a store; and when no two
    bookings share an identifier before the run, none do after it. *)
Theorem race_keeps_constraints (db : Store) (pages : list (Props * State))
    (schedule : list nat) :
  wf db →
  let db' := store (run (start db pages) schedule) in
  wf db' ∧
  (NoDup (Booking.id <$> bookings db) → NoDup (Booking.id <$> bookings db')).
Proof.
  intros Hwf db'.
  assert (Hgen : ∀ cfg, wf (store cfg) →
    wf (store (run cfg schedule)) ∧
    (NoDup (Booking.id <$> bookings (store cfg)) →
     NoDup (Booking.id <$> bookings (store (run cfg schedule))))).
  { induction schedule as [|i schedule IH]; intros cfg Hcfg; [done|].
    change (run cfg (i :: schedule)) with (run (step cfg i) schedule).
    destruct (IH (step cfg i)) as [Hwf' Hids].
    { by apply SubmitFacts.step_wf. }
    split; [done|]. intros Hnd. apply Hids.
    by apply SubmitFacts.step_ids. }
  by apply (Hgen (start db pages)).
Qed.

Lemma race_keeps_constraints_witness :
  wf (store Scenario.race_final) ∧
  NoDup (Booking.id <$> bookings (store Scenario.race_final)).
Proof.
  destruct (race_keeps_constraints Scenario.db0 Scenario.race_pages
              Scenario.race_schedule) as [Hwf Hids].
  - apply (bool_decide_unpack _). vm_compute. exact I.
  - split; [exact Hwf|]. apply Hids. constructor.
Defined.

(** ** The bookings page *)

Module BookingsFacts.

Lemma mount_signed_in order u db :
  Bookings.bookings (Bookings.mount order (Some u) db) =
  order (filter (λ b, Booking.user_id b = User.id u) (bookings db)).
Proof. done. Qed.

Lemma handleBooking_finish_bookings p pend st db db' st' o :
  handleBooking_finish p pend st db = (db', st', o) →
  bookings db' = bookings db.
Proof.
  unfold handleBooking_finish, insert_booked_seats.
  destruct (insert_rows _ _ _); by intros [= <- _ _].
Qed.

End BookingsFacts.

(** X11. The bookings page of a signed-in user holds, in the order the
    store answers in, the rows of [bookings] that belong to the user, each
    once, and no row of anybody else; it has stopped loading and has not
    navigated. Without a user the page asks the store nothing: it holds no
    row, navigates to /auth and goes on showing that it loads. *)
Theorem bookings_page_lists_own_bookings
    (order : list Booking.t → list Booking.t) (u : User.t) (db : Store) :
  (∀ l, order l ≡ₚ l) →
  let st := Bookings.mount order (Some u) db in
  Bookings.bookings st ≡ₚ
    filter (λ b, Booking.user_id b = User.id u) (bookings db) ∧
  (∀ b, b ∈ Bookings.bookings st ↔
        b ∈ bookings db ∧ Booking.user_id b = User.id u) ∧
  Bookings.loading st = false ∧ Bookings.navigated st = [] ∧
  Bookings.mount order None db =
    {| Bookings.bookings := []; Bookings.loading := true;
       Bookings.navigated := ["/auth"] |}.
Proof.
  intros Horder st. subst st. rewrite BookingsFacts.mount_signed_in.
  split_and!; [apply Horder| |done..].
  intros b. etrans; [apply elem_of_Permutation_proper, Horder|].
  rewrite list_elem_of_filter. tauto.
Qed.

(** After the race Alice's page shows her booking and Bob's page his,
    newest first. *)
Lemma bookings_page_lists_own_bookings_witness :
  Bookings.bookings
    (Bookings.mount reverse (Some (User.mk "alice"))
       (store Scenario.race_final)) ≡ₚ [Scenario.alice_booking] ∧
  Bookings.bookings
    (Bookings.mount reverse (Some (User.mk "bob"))
       (store Scenario.race_final)) ≡ₚ [Scenario.bob_booking].
Proof.
  assert (Hrev : ∀ l : list Booking.t, reverse l ≡ₚ l)
    by (intros l; apply reverse_Permutation).
  split.
  - apply (bookings_page_lists_own_bookings reverse (User.mk "alice")
             (store Scenario.race_final) Hrev).
  - apply (bookings_page_lists_own_bookings reverse (User.mk "bob")
             (store Scenario.race_final) Hrev).
Defined.

(** X12. Every submission whose booking row the store takes shows on the
    bookings page, whether its seats were reserved or refused: after a
    submission past the guard with a total in the range of its column, by
    a user with a profile, for a showtime the store has, the page of the
    user holds the rows it held before and the new row, with the selected
    seats and the status confirmed. A submission whose booking row the
    store refuses fails and leaves the store, and with it every page, as
    it was. Either way the page of any other user holds what it held
    before. *)
Theorem bookings_page_after_submission
    (order : list Booking.t → list Booking.t) (p : Props) (st : State)
    (db : Store) (u : User.t) (sh : Showtime.t) :
  (∀ l, order l ≡ₚ l) →
  user p = Some u → showtime st = Some sh → selectedSeats st ≠ [] →
  let totalPrice :=
    Showtime.ticket_price sh * Z.of_nat (length (selectedSeats st)) in
  let db' := (handleBooking p st db).1.1 in
  let row := new_booking p st db u sh in
  (Z.abs totalPrice < 10 ^ 10 → User.id u ∈ profiles db →
   showtime_exists db (showtimeId p) = true →
   Booking.seats row = selectedSeats st ∧
   Booking.booking_status row = "confirmed" ∧
   Bookings.bookings (Bookings.mount order (Some u) db') ≡ₚ
     row :: Bookings.bookings (Bookings.mount order (Some u) db)) ∧
  (∀ e, check_booking db (User.id u) (showtimeId p) totalPrice = Some e →
     (handleBooking p st db).2 = Failed e ∧ db' = db) ∧
  ∀ v, User.id v ≠ User.id u →
    Bookings.bookings (Bookings.mount order (Some v) db') ≡ₚ
    Bookings.bookings (Bookings.mount order (Some v) db).
Proof.
  intros Horder Hu Hsh Hne totalPrice db' row.
  assert (Hcases :
    (check_booking db (User.id u) (showtimeId p) totalPrice = None ∧
     bookings db' = bookings db ++ [row]) ∨
    (∃ e, check_booking db (User.id u) (showtimeId p) totalPrice = Some e ∧
          (handleBooking p st db).2 = Failed e ∧ db' = db)).
  { subst db'.
    destruct (check_booking db (User.id u) (showtimeId p) totalPrice)
      as [e|] eqn:Hcheck.
    - right. exists e.
      by rewrite (SubmitFacts.handleBooking_refused p st db u sh e).
    - left. split; [done|].
      rewrite (SubmitFacts.handleBooking_past_guard p st db u sh) by done.
      destruct (handleBooking_finish _ _ _ _) as [[db2 st2] o] eqn:Hf.
      by apply BookingsFacts.handleBooking_finish_bookings in Hf. }
  split_and!.
  - intros H1 H2 H3.
    destruct Hcases as [[_ Hrows]|(e & Hcheck & _)].
    + rewrite !BookingsFacts.mount_signed_in, Hrows.
      split_and!; [done..|].
      etrans; [apply Horder|]. etrans; [|apply Permutation_skip; symmetry;
                                           apply Horder].
      rewrite filter_app, filter_cons_True by done.
      rewrite filter_nil. by rewrite <-Permutation_cons_append.
    + assert (Hnone : check_booking db (User.id u) (showtimeId p) totalPrice
                      = None) by (by apply DbFacts.check_booking_None).
      congruence.
  - intros e He. destruct Hcases as [[Hnone _]|(e' & He' & Ho & Hdb)].
    + congruence.
    + by replace e with e' by congruence.
  - intros v Hv. destruct Hcases as [[_ Hrows]|(e & _ & _ & ->)]; [|done].
    rewrite !BookingsFacts.mount_signed_in, Hrows.
    etrans; [apply Horder|]. etrans; [|symmetry; apply Horder].
    rewrite filter_app.
    rewrite filter_cons_False by (simpl; congruence).
    by rewrite filter_nil, app_nil_r.
Qed.

(** Bob's refused submission of A1 shows on his page and not on Alice's. *)
Lemma bookings_page_after_submission_witness :
  let db' :=
    (handleBooking Scenario.bob
       (Scenario.picked Scenario.bob Scenario.db0 ["A1"]) Scenario.db1).1.1 in
  (handleBooking Scenario.bob
     (Scenario.picked Scenario.bob Scenario.db0 ["A1"]) Scenario.db1).2 =
    Failed unique_error ∧
  Bookings.bookings (Bookings.mount reverse (Some (User.mk "bob")) db') ≡ₚ
    [Scenario.bob_booking] ∧
  Bookings.bookings (Bookings.mount reverse (Some (User.mk "alice")) db') ≡ₚ
    [Scenario.alice_booking].
Proof.
  intros db'.
  assert (Hrev : ∀ l : list Booking.t, reverse l ≡ₚ l)
    by (intros l; apply reverse_Permutation).
  destruct (bookings_page_after_submission reverse Scenario.bob
              (Scenario.picked Scenario.bob Scenario.db0 ["A1"])
              Scenario.db1 (User.mk "bob") Scenario.s1 Hrev)
    as (Haccepted & _ & Hothers); try reflexivity.
  { vm_compute. discriminate. }
  destruct Haccepted as (_ & _ & Hbob).
  { vm_compute. reflexivity. }
  { apply (bool_decide_unpack _). vm_compute. exact I. }
  { reflexivity. }
  split_and!.
  - vm_compute. reflexivity.
  - subst db'. rewrite Hbob. vm_compute. reflexivity.
  - subst db'. rewrite (Hothers (User.mk "alice")).
    + vm_compute. reflexivity.
    + vm_compute. discriminate.
Defined.

(** ** The movie page *)

(** X13. When the store answers the movie page with at least one showtime,
    the date the page selects is the date of the first one: it is one of
    the date buttons, and the time slots shown for it are not empty, begin
    with that first showtime and all have the selected date. An answer
    with no showtime leaves no date button and keeps the selected date; an
    error keeps the page as it was and is only written to the console, no
    toast being shown. *)
Theorem default_date_has_slots (data : list MovieDetails.Showtime)
    (st : MovieDetails.State) :
  let st' := MovieDetails.fetchShowtimes (inr data) st in
  (data ≠ [] →
   MovieDetails.selectedDate st' ∈ MovieDetails.uniqueDates st' ∧
   MovieDetails.filteredShowtimes st' ≠ [] ∧
   head (MovieDetails.filteredShowtimes st') = head data ∧
   ∀ s, s ∈ MovieDetails.filteredShowtimes st' →
        MovieDetails.show_date s = MovieDetails.selectedDate st') ∧
  (data = [] →
   MovieDetails.uniqueDates st' = [] ∧
   MovieDetails.selectedDate st' = MovieDetails.selectedDate st) ∧
  (∀ e, let failed := MovieDetails.fetchShowtimes (inl e) st in
        MovieDetails.showtimes failed = MovieDetails.showtimes st ∧
        MovieDetails.selectedDate failed = MovieDetails.selectedDate st ∧
        MovieDetails.toasts failed = MovieDetails.toasts st ∧
        MovieDetails.console failed =
          MovieDetails.console st ++ ["Error fetching showtimes:"]).
Proof.
  intros st'. split_and!.
  - destruct data as [|first rest]; [done|]. intros _. subst st'.
    unfold MovieDetails.uniqueDates, MovieDetails.filteredShowtimes. simpl.
    split_and!.
    + apply JsFacts.elem_of_unique. by left.
    + by rewrite filter_cons_True.
    + by rewrite filter_cons_True.
    + by intros s [? _]%list_elem_of_filter.
  - by intros ->.
  - done.
Qed.

Lemma default_date_has_slots_witness :
  let data :=
    [ MovieDetails.mkShowtime "s1" "2025-01-02" "18:00:00" 1000 "Hall 1";
      MovieDetails.mkShowtime "s2" "2025-01-02" "21:00:00" 1200 "Hall 1";
      MovieDetails.mkShowtime "s3" "2025-01-03" "18:00:00" 1000 "Hall 2" ] in
  let st' := MovieDetails.fetchShowtimes (inr data) MovieDetails.initial in
  MovieDetails.selectedDate st' = "2025-01-02" ∧
  MovieDetails.uniqueDates st' = ["2025-01-02"; "2025-01-03"] ∧
  MovieDetails.filteredShowtimes st' ≠ [].
Proof.
  intros data st'.
  destruct (default_date_has_slots data MovieDetails.initial)
    as (Hsome & _ & _).
  destruct Hsome as (_ & Hslots & _); [done|].
  split_and!; [reflexivity|vm_compute; reflexivity|exact Hslots].
Defined.

(** X14. The date buttons of the movie page carry the dates of the
    showtimes, each date once, in the order the dates first occur: of two
    buttons the earlier one has a showtime at a place of the list before
    which no showtime of the later one stands. A click on any of them shows
    time slots, never an empty list, and the slots of all the buttons
    together are the showtimes of the page, every showtime under one
    button. *)
Theorem date_buttons_partition (st : MovieDetails.State) :
  let dates := MovieDetails.show_date <$> MovieDetails.showtimes st in
  NoDup (MovieDetails.uniqueDates st) ∧
  (∀ date, date ∈ MovieDetails.uniqueDates st ↔ date ∈ dates) ∧
  (∀ i j earlier later,
     MovieDetails.uniqueDates st !! i = Some earlier →
     MovieDetails.uniqueDates st !! j = Some later → (i < j)%nat →
     ∃ n, dates !! n = Some earlier ∧ later ∉ take n dates) ∧
  (MovieDetails.uniqueDates st ≫=
     (λ date, MovieDetails.filteredShowtimes
                (MovieDetails.setSelectedDate date st)))
    ≡ₚ MovieDetails.showtimes st ∧
  ∀ date, date ∈ MovieDetails.uniqueDates st →
    MovieDetails.filteredShowtimes (MovieDetails.setSelectedDate date st)
      ≠ [].
Proof.
  intros dates. subst dates. unfold MovieDetails.uniqueDates. split_and!.
  - apply JsFacts.NoDup_unique.
  - intros date. apply JsFacts.elem_of_unique.
  - apply JsFacts.unique_order.
  - unfold MovieDetails.filteredShowtimes. simpl.
    apply (JsFacts.groups_Permutation MovieDetails.show_date).
    + apply JsFacts.NoDup_unique.
    + intros s Hs. apply JsFacts.elem_of_unique.
      by apply list_elem_of_fmap_2.
  - intros date Hdate. apply (proj1 (JsFacts.elem_of_unique _ _)) in Hdate.
    apply list_elem_of_fmap in Hdate as (s & -> & Hs).
    unfold MovieDetails.filteredShowtimes. simpl. intros Hnil.
    by eapply (filter_nil_not_elem_of _ _ s) in Hnil.
Qed.

(** ** The front page *)

(** X15. The list the front page shows is the list of movies with some
    left out, in the same order: a movie is shown exactly when it is one of
    the movies, its title in lower case includes the search term in lower
    case unless the term is empty, and its genres hold the selected genre
    unless none is selected. Filtering what is shown again changes nothing,
    and with no term and no genre every movie is shown. *)
Theorem filterMovies_spec (toLowerCase : string → string)
    (movies : list Index.Movie) (searchTerm selectedGenre : string) :
  let shown := Index.filterMovies toLowerCase movies searchTerm selectedGenre in
  shown `sublist_of` movies ∧
  (∀ movie, movie ∈ shown ↔
     movie ∈ movies ∧
     (searchTerm = "" ∨
      Js.includes (toLowerCase (Index.title movie)) (toLowerCase searchTerm)
        = true) ∧
     (selectedGenre = "" ∨ selectedGenre ∈ Index.genres movie)) ∧
  Index.filterMovies toLowerCase shown searchTerm selectedGenre = shown ∧
  Index.filterMovies toLowerCase movies "" "" = movies.
Proof.
  intros shown. subst shown. unfold Index.filterMovies.
  destruct (decide (searchTerm = "")) as [->|Hs];
    destruct (decide (selectedGenre = "")) as [->|Hg];
    rewrite ?(bool_decide_eq_false_2 ("" ≠ "")) by (by intros ?);
    rewrite ?(bool_decide_eq_true_2 (searchTerm ≠ "")) by done;
    rewrite ?(bool_decide_eq_true_2 (selectedGenre ≠ "")) by done;
    (split_and!; [| | |done]).
  - done.
  - intros movie. intuition congruence.
  - done.
  - apply sublist_filter.
  - intros movie. rewrite list_elem_of_filter. intuition congruence.
  - apply DbFacts.filter_all. by intros m [? _]%list_elem_of_filter.
  - apply sublist_filter.
  - intros movie. rewrite list_elem_of_filter. intuition congruence.
  - apply DbFacts.filter_all. by intros m [? _]%list_elem_of_filter.
  - etrans; apply sublist_filter.
  - intros movie. rewrite !list_elem_of_filter. intuition congruence.
  - rewrite (DbFacts.filter_all (λ m, Js.includes _ _ = true)).
    + apply DbFacts.filter_all. by intros m [? _]%list_elem_of_filter.
    + by intros m [_ [? _]%list_elem_of_filter]%list_elem_of_filter.
Qed.

(** X16. The genre buttons of the front page carry the genres of the
    movies, each genre once, and with an empty search box a click on any of
    them shows at least one movie. *)
Theorem genre_buttons_never_empty (toLowerCase : string → string)
    (movies : list Index.Movie) :
  NoDup (Index.allGenres movies) ∧
  (∀ genre, genre ∈ Index.allGenres movies ↔
            ∃ movie, movie ∈ movies ∧ genre ∈ Index.genres movie) ∧
  ∀ genre, genre ∈ Index.allGenres movies →
    Index.filterMovies toLowerCase movies "" genre ≠ [].
Proof.
  assert (Hin : ∀ genre, genre ∈ Index.allGenres movies ↔
            ∃ movie, movie ∈ movies ∧ genre ∈ Index.genres movie).
  { intros genre. unfold Index.allGenres.
    rewrite JsFacts.elem_of_unique, list_elem_of_bind.
    split; intros (movie & ? & ?); by exists movie. }
  split_and!; [apply JsFacts.NoDup_unique|done|].
  intros genre (movie & Hmovie & Hgenre)%Hin. unfold Index.filterMovies.
  cbv zeta. rewrite (bool_decide_eq_false_2 ("" ≠ "")) by (by intros ?).
  case_bool_decide as Hg.
  - intros Hnil.
    apply (filter_nil_not_elem_of (λ m, genre ∈ Index.genres m) movies movie)
      in Hnil; [|exact Hgenre].
    by apply Hnil.
  - intros Hnil. rewrite Hnil in Hmovie. by apply elem_of_nil in Hmovie.
Qed.

Lemma genre_buttons_never_empty_witness :
  let movies :=
    [ Index.mkMovie "m1" "Alien" None ["Horror"; "Sci-Fi"] 117;
      Index.mkMovie "m2" "Heat" None ["Crime"] 170;
      Index.mkMovie "m3" "Arrival" None ["Sci-Fi"] 116 ] in
  Index.allGenres movies = ["Horror"; "Sci-Fi"; "Crime"] ∧
  Index.filterMovies id movies "" "Sci-Fi" ≠ [] ∧
  Index.id <$> Index.filterMovies id movies "A" "Sci-Fi" = ["m1"; "m3"].
Proof.
  intros movies.
  destruct (genre_buttons_never_empty id movies) as (_ & _ & Hshown).
  split_and!.
  - vm_compute. reflexivity.
  - apply Hshown. apply (bool_decide_unpack _). vm_compute. exact I.
  - vm_compute. reflexivity.
Defined.

(** ** Row level security *)

Module RlsFacts.
Import Rls.

Lemma has_role_None roles r : has_role roles None r = false.
Proof. done. Qed.

Lemma apply_request_refused roles uid req :
  has_role roles uid admin = false → apply_request roles uid req = roles.
Proof.
  intros Hno. destruct req; unfold apply_request, allows; by rewrite Hno.
Qed.

End RlsFacts.

(** X17. Without a session nothing can be written: the policies pass an
    anonymous request only when it reads, and never on [bookings]. A
    session whose user is no admin can write three things only: a booking
    in its own name, a reservation, its own profile. Nobody, an admin
    included, can change or delete a row of [bookings]. *)
Theorem rls_limits_writes (user_roles : list (string * app_role))
    (uid : option string) (table : Table) (cmd : Command) (owner : string) :
  Rls.allows user_roles uid table cmd owner = true →
  (uid = None → cmd = SELECT ∧ table ≠ t_bookings) ∧
  (Rls.has_role user_roles uid admin = false → cmd ≠ SELECT →
   uid = Some owner ∧ table = t_bookings ∧ cmd = INSERT ∨
   uid = Some owner ∧ table = t_profiles ∧ cmd = UPDATE ∨
   is_Some uid ∧ table = t_booked_seats ∧ cmd = INSERT) ∧
  (table = t_bookings → cmd = SELECT ∨ cmd = INSERT ∧ uid = Some owner).
Proof.
  intros Hallow. split_and!.
  - intros ->. destruct table, cmd; try done.
  - intros Hno Hcmd. unfold Rls.allows in Hallow. rewrite Hno in Hallow.
    destruct table, cmd; try done; destruct uid as [u|]; try done;
      simpl in Hallow; try (apply bool_decide_eq_true in Hallow as ->);
      eauto 6.
  - intros ->. destruct cmd; try done; [by left|]. right. split; [done|].
    destruct uid as [u|]; [|done]. simpl in Hallow.
    by apply bool_decide_eq_true in Hallow as ->.
Qed.

(** Bob, no admin, may insert a booking in his own name and not in
    Alice's. *)
Lemma rls_limits_writes_witness :
  Rls.allows [] (Some "bob") t_bookings INSERT "bob" = true ∧
  Rls.allows [] (Some "bob") t_bookings INSERT "alice" = false ∧
  Rls.allows [("root", admin)] (Some "root") t_bookings DELETE "bob" = false.
Proof.
  split_and!; [reflexivity| |reflexivity].
  destruct (Rls.allows [] (Some "bob") t_bookings INSERT "alice") eqn:Hallow;
    [|reflexivity].
  destruct (rls_limits_writes [] (Some "bob") t_bookings INSERT "alice" Hallow)
    as (_ & _ & Hbookings).
  by destruct (Hbookings eq_refl) as [?|[_ ?]].
Defined.

(** X18. The two inserts of a submission pass the policies in the session
    of the user who submits: the booking row carries that user as owner,
    and a reservation needs a session only. The booking row can be read
    back in that session, and in the session of another user only if that
    user is an admin. *)
Theorem submission_passes_policies (user_roles : list (string * app_role))
    (p : Props) (st : State) (db db' : Store) (st' : State) (pend : Pending)
    (u : User.t) :
  user p = Some u →
  handleBooking_begin p st db = (db', st', inr pend) →
  let owner := Booking.user_id (bookingData pend) in
  let session := Some (User.id u) in
  Rls.allows user_roles session t_bookings INSERT owner = true ∧
  Rls.allows user_roles session t_bookings SELECT owner = true ∧
  (∀ r, r ∈ seatReservations p pend →
        Rls.allows user_roles session t_booked_seats INSERT
          (BookedSeat.seat_label r) = true) ∧
  ∀ v, v ≠ User.id u →
    Rls.allows user_roles (Some v) t_bookings SELECT owner =
    Rls.has_role user_roles (Some v) admin.
Proof.
  intros Hu Hbegin owner session.
  assert (Howner : owner = User.id u).
  { subst owner. revert Hbegin. unfold handleBooking_begin. rewrite Hu.
    destruct (showtime st); [|done]. case_bool_decide; [done|].
    destruct (insert_booking _ _ _ _ _) as [db1 [e|b]] eqn:Hins; [done|].
    apply DbFacts.insert_booking_inr in Hins as (_ & -> & _).
    by intros [= _ _ <-]. }
  rewrite Howner. subst session. unfold Rls.allows, Rls.uid_is.
  rewrite !bool_decide_eq_true_2 by done. split_and!; [done..|].
  intros v Hv. rewrite bool_decide_eq_false_2 by done.
  by destruct (Rls.has_role _ _ _).
Qed.

Lemma submission_passes_policies_witness :
  let st := Scenario.picked Scenario.alice Scenario.db0 ["A1"; "B2"] in
  ∃ db' st' pend,
    handleBooking_begin Scenario.alice st Scenario.db0 =
      (db', st', inr pend) ∧
    Rls.allows [] (Some "alice") t_bookings INSERT
      (Booking.user_id (bookingData pend)) = true ∧
    Rls.allows [] (Some "bob") t_bookings SELECT
      (Booking.user_id (bookingData pend)) = false.
Proof.
  intros st.
  destruct (handleBooking_begin Scenario.alice st Scenario.db0)
    as [[db' st'] [o|pend]] eqn:Hbegin.
  { exfalso. pose proof (f_equal snd Hbegin) as Ho. cbn [snd] in Ho.
    revert Ho. vm_compute. discriminate. }
  destruct (submission_passes_policies [] Scenario.alice st Scenario.db0
              db' st' pend (User.mk "alice") eq_refl Hbegin)
    as (Hinsert & _ & _ & Hother).
  exists db', st', pend. split_and!; [reflexivity|exact Hinsert|].
  rewrite (Hother "bob"); [reflexivity|discriminate].
Defined.

(** X19. Roles cannot be given or taken by those who are no admins: the
    requests of sessions that are not admin at the start, the anonymous
    one among them, leave [user_roles] as it is, whatever they ask for and
    in whatever order. In particular a table with no admin in it, as the
    migration leaves it, never gets one through requests. *)
Theorem roles_need_an_admin (user_roles : list (string * app_role))
    (reqs : list (option string * Rls.RoleRequest)) :
  (∀ req, req ∈ reqs → Rls.has_role user_roles req.1 admin = false) →
  Rls.apply_requests user_roles reqs = user_roles.
Proof.
  unfold Rls.apply_requests.
  induction reqs as [|req reqs IH]; intros Hno; [done|]. simpl.
  rewrite RlsFacts.apply_request_refused by (apply Hno; by left).
  apply IH. intros r Hr. apply Hno. by right.
Qed.

(** Bob asks for the admin role for himself, then for Alice's removal from
    the users: the table stays empty. *)
Lemma roles_need_an_admin_witness :
  Rls.apply_requests []
    [ (Some "bob", Rls.InsertRole "bob" admin);
      (None, Rls.InsertRole "eve" admin);
      (Some "bob", Rls.DeleteRole "alice" user_role) ] = [].
Proof.
  apply roles_need_an_admin. intros req _. by destruct req as [[u|] r].
Defined.

(** ** From the fetch to the confirmation *)

Module ClickFacts.




End ClickFacts.


